(** * Chat Navigator: extraction layer and navigator controller

    A shallow embedding of the content scripts of the Chat Navigator browser
    extension: the eight per-platform parsers ([getQuestions], [getChats])
    and the shared controller [ChatNavigatorUI] (panel state machine,
    rendering, row selection, debounced refresh).

    JavaScript strings are sequences of UTF-16 code units, modelled as
    [list N].  The page is the host's: the parsers only query it by selector,
    read text, read and write [id], read [href]; those capabilities form the
    record [Page], and the one thing the parsers write (element ids) is an
    explicit store threaded through the extraction pass. *)

From Stdlib Require Import NArith ZArith Ascii String DecimalString Lia.
From stdpp Require Import base option list gmap strings.

Open Scope N_scope.
Open Scope nat_scope.

(** ** JavaScript strings *)

Abbreviation jsstring := (list N).

(** A source literal as a sequence of code units. *)
Definition js (s : string) : jsstring := N_of_ascii <$> list_ascii_of_string s.

(** The double quote, for literals that contain one. *)
Definition dq : string := String (ascii_of_nat 34) EmptyString.

(** [`${index}`]: a non-negative integer in decimal. *)
Definition decimal (n : nat) : jsstring := js (NilEmpty.string_of_uint (Nat.to_uint n)).

(** ToBoolean on a string: only the empty string is falsy. *)
Definition truthy (t : jsstring) : bool :=
  match t with [] => false | _ :: _ => true end.

(** [a || b] on strings. *)
Definition js_or (a b : jsstring) : jsstring := if truthy a then a else b.

(** ToBoolean on a possibly-undefined string. *)
Definition truthy_opt (o : option jsstring) : bool :=
  match o with Some t => truthy t | None => false end.

(** WhiteSpace and LineTerminator code units, the ones [trim] strips. *)
Definition isWhiteSpace (c : N) : bool :=
  ((c =? 9) || (c =? 10) || (c =? 11) || (c =? 12) || (c =? 13) || (c =? 32)
   || (c =? 160) || (c =? 5760) || ((8192 <=? c) && (c <=? 8202))
   || (c =? 8232) || (c =? 8233) || (c =? 8239) || (c =? 8287)
   || (c =? 12288) || (c =? 65279))%N.

Fixpoint trimStart (t : jsstring) : jsstring :=
  match t with
  | [] => []
  | c :: r => if isWhiteSpace c then trimStart r else t
  end.

Definition trimEnd (t : jsstring) : jsstring := reverse (trimStart (reverse t)).

(** [String.prototype.trim]. *)
Definition trim (t : jsstring) : jsstring := trimEnd (trimStart t).

(** [String.prototype.substring(start, end)]: both indices are clamped to the
    length and swapped when out of order. *)
Definition substring (start stop : nat) (t : jsstring) : jsstring :=
  let a := Nat.min (Nat.min start stop) (length t) in
  let b := Nat.min (Nat.max start stop) (length t) in
  take (b - a) (drop a t).

Fixpoint startsWith (pat t : jsstring) : bool :=
  match pat, t with
  | [], _ => true
  | _ :: _, [] => false
  | p :: ps, c :: cs => (p =? c)%N && startsWith ps cs
  end.

(** [String.prototype.includes]. *)
Fixpoint includes (t pat : jsstring) : bool :=
  startsWith pat t ||
  match t with
  | [] => false
  | _ :: r => includes r pat
  end.

(** Canonicalisation of the [i] flag (no [u] flag): a code unit is compared
    through its upper-case form, and a non-ASCII unit never folds to an ASCII
    one, so against the ASCII patterns used here only the 26 letter pairs
    fold. *)
Definition canonicalize (c : N) : N :=
  if ((97 <=? c) && (c <=? 122))%N then (c - 32)%N else c.

Fixpoint startsWithCI (pat t : jsstring) : bool :=
  match pat, t with
  | [], _ => true
  | _ :: _, [] => false
  | p :: ps, c :: cs => (canonicalize p =? canonicalize c)%N && startsWithCI ps cs
  end.

(** [text.match(/^(w1|w2|...)tail/i)] as a test: the alternatives are tried in
    order at index 0. *)
Definition matchesPrefixCI (words : list string) (tail : string) (t : jsstring) : bool :=
  existsb (fun w => startsWithCI (js (w +:+ tail)) t) words.

Fixpoint takeWhile (p : N -> bool) (t : jsstring) : jsstring :=
  match t with
  | [] => []
  | c :: r => if p c then c :: takeWhile p r else []
  end.

(** One attempt of [/lit([^stop]+)/] at the start of [t], for the first
    alternative literal that fits; the capture is the longest run of
    non-[stop] units and must not be empty. *)
Fixpoint matchHere (lits : list jsstring) (stop : N -> bool) (t : jsstring) : option jsstring :=
  match lits with
  | [] => None
  | lit :: more =>
      if startsWith lit t then
        match takeWhile (fun c => negb (stop c)) (drop (length lit) t) with
        | [] => matchHere more stop t
        | cap => Some cap
        end
      else matchHere more stop t
  end.

(** [href.match(/lit([^stop]+)/)]: the leftmost match; the result is the
    capture group, [None] for JavaScript's [null]. *)
Fixpoint reCapture (lits : list jsstring) (stop : N -> bool) (t : jsstring) : option jsstring :=
  match matchHere lits stop t with
  | Some cap => Some cap
  | None =>
      match t with
      | [] => None
      | _ :: r => reCapture lits stop r
      end
  end.

Definition isSlash (c : N) : bool := (c =? 47)%N.
Definition isSlashOrQuery (c : N) : bool := ((c =? 47) || (c =? 63))%N.

(** [text.length > cap ? text.substring(0, cap) + '...' : text]. *)
Definition truncate (cap : nat) (text : jsstring) : jsstring :=
  if cap <? length text then substring 0 cap text ++ js "..." else text.

(** ** The page, as the host presents it *)

Definition node := nat.

Record Page := {
  (** [document.querySelectorAll(selector)], in document order *)
  querySelectorAll : string -> list node;
  (** [element.querySelector(selector)] *)
  elQuerySelector : node -> string -> option node;
  (** [element.textContent] *)
  textContent : node -> jsstring;
  (** [element.href]; [None] is [undefined] (the element is no anchor) *)
  href : node -> option jsstring;
  (** [element.closest('a')] *)
  closestAnchor : node -> option node;
  (** [element.value]; [None] is [undefined] *)
  value : node -> option jsstring;
  (** [element.classList.contains(name)] *)
  classListContains : node -> string -> bool;
  (** [window.location.href] *)
  location_href : jsstring
}.

(** [document.querySelector(selector)]: the first match in document order. *)
Definition querySelector (pg : Page) (sel : string) : option node :=
  head (querySelectorAll pg sel).

(** Element ids, the part of the page the parsers write.  An element without
    an id attribute reads as the empty string. *)
Definition elementId (ids : gmap node jsstring) (n : node) : jsstring :=
  default [] (ids !! n).

Definition setElementId (ids : gmap node jsstring) (n : node) (v : jsstring) : gmap node jsstring :=
  <[n := v]> ids.

(** ** Records produced by extraction *)

Record Question := { q_id : jsstring; q_text : jsstring }.

Record Chat := { c_id : jsstring; c_title : jsstring; c_url : option jsstring }.

(** ** Extractor variants *)

Inductive Platform :=
  ChatGPT | Perplexity | Claude | Gemini | DeepSeek | Copilot | Meta | Grok.

(** [array.forEach((x, index) => ...)] with the loop's variables as state. *)
Fixpoint forEachFrom {A St : Type} (f : A -> nat -> St -> St) (l : list A) (index : nat) (s : St) : St :=
  match l with
  | [] => s
  | x :: r => forEachFrom f r (S index) (f x index s)
  end.

Definition forEach {A St : Type} (f : A -> nat -> St -> St) (l : list A) (s : St) : St :=
  forEachFrom f l 0 s.

(** [selectors.forEach(sel => { acc = [...acc, ...document.querySelectorAll(sel)] })] *)
Definition queryEach (pg : Page) (sels : list string) (acc : list node) : list node :=
  foldl (fun acc sel => acc ++ querySelectorAll pg sel) acc sels.

(** [found.forEach(x => { if (keep(x)) acc.push(x) })] *)
Definition pushWhere (keep : node -> bool) (found : list node) (acc : list node) : list node :=
  acc ++ List.filter keep found.

Definition hasDescendant (pg : Page) (n : node) (sel : string) : bool :=
  match elQuerySelector pg n sel with Some _ => true | None => false end.

Definition attr (name op val : string) : string :=
  "[" +:+ name +:+ op +:+ dq +:+ val +:+ dq +:+ "]".

(** The candidate user messages a platform's [getQuestions] iterates over. *)
Definition userMessages (pf : Platform) (pg : Page) : list node :=
  match pf with
  | ChatGPT =>
      querySelectorAll pg (attr "data-message-author-role" "=" "user")
  | Perplexity =>
      let userMessages :=
        queryEach pg
          [ attr "data-testid" "=" "user-query"; ".user-query"; ".query";
            attr "class" "*=" "query"; ".user-message"; attr "class" "*=" "user-input" ] [] in
      let threadQueries :=
        querySelectorAll pg
          (".thread .query, " +:+ attr "class" "*=" "thread" +:+ " "
           +:+ attr "class" "*=" "query" +:+ ", .search-query, .question") in
      pushWhere (fun query => truthy (trim (textContent pg query))) threadQueries userMessages
  | Claude =>
      let userMessages :=
        querySelectorAll pg
          (attr "data-is-streaming" "=" "false" +:+ " .font-user-message, .human-message, "
           +:+ attr "class" "*=" "user" +:+ ", " +:+ attr "data-testid" "*=" "user") in
      let alternativeSelectors :=
        [ ".prose.break-words:not(.font-claude-message)";
          ".whitespace-pre-wrap:not(" +:+ attr "class" "*=" "assistant" +:+ ")";
          ".message-content" +:+ attr "data-author" "=" "human" ] in
      let allUserMessages :=
        if length userMessages =? 0
        then queryEach pg alternativeSelectors userMessages
        else userMessages in
      let conversationMessages :=
        querySelectorAll pg
          (".conversation .message, " +:+ attr "class" "*=" "conversation" +:+ " "
           +:+ attr "class" "*=" "message") in
      pushWhere
        (fun msg =>
           negb (includes (textContent pg msg) (js "Claude:"))
           && negb (hasDescendant pg msg (attr "class" "*=" "assistant"))
           && negb (hasDescendant pg msg ".font-claude-message"))
        conversationMessages allUserMessages
  | Gemini =>
      let userMessages :=
        queryEach pg
          [ attr "data-test-id" "=" "user-message"; ".user-message";
            attr "class" "*=" "user"; attr "data-role" "=" "user";
            ".human-message"; ".prompt-input" ] [] in
      let conversationMessages :=
        querySelectorAll pg
          (".conversation " +:+ attr "class" "*=" "message" +:+ ", "
           +:+ attr "class" "*=" "chat" +:+ " " +:+ attr "class" "*=" "message"
           +:+ ", .response-container " +:+ attr "class" "*=" "user") in
      pushWhere
        (fun msg =>
           truthy (textContent pg msg)
           && negb (hasDescendant pg msg (attr "class" "*=" "model"))
           && negb (hasDescendant pg msg (attr "class" "*=" "assistant"))
           && negb (includes (textContent pg msg) (js "Gemini:"))
           && negb (includes (textContent pg msg) (js "Bard:")))
        conversationMessages userMessages
  | DeepSeek =>
      querySelectorAll pg (".user-message, " +:+ attr "data-author" "=" "user")
  | Copilot =>
      let userMessages :=
        queryEach pg
          [ attr "data-author" "=" "user"; ".user-message"; attr "class" "*=" "user";
            ".human-message"; attr "data-testid" "=" "user-message"; ".msg-user" ] [] in
      queryEach pg
        [ ".ac-textBlock .ac-textRun";
          ".cib-serp-main " +:+ attr "class" "*=" "user";
          ".b_sydConvCont " +:+ attr "data-author" "=" "user";
          ".cib-chat-turn" +:+ attr "data-author" "=" "user" ] userMessages
  | Meta =>
      let userMessages :=
        queryEach pg
          [ attr "data-testid" "=" "user-message"; ".user-message";
            attr "class" "*=" "user"; attr "data-role" "=" "user";
            ".human-message"; ".message-user" ] [] in
      let chatMessages :=
        querySelectorAll pg
          (".chat " +:+ attr "class" "*=" "message" +:+ ", "
           +:+ attr "class" "*=" "conversation" +:+ " " +:+ attr "class" "*=" "message"
           +:+ ", .thread " +:+ attr "class" "*=" "message") in
      pushWhere
        (fun msg =>
           truthy (textContent pg msg)
           && negb (hasDescendant pg msg (attr "class" "*=" "bot"))
           && negb (hasDescendant pg msg (attr "class" "*=" "assistant"))
           && negb (includes (textContent pg msg) (js "Meta AI:"))
           && negb (classListContains pg msg "ai-message"))
        chatMessages userMessages
  | Grok =>
      let userMessages :=
        queryEach pg
          [ attr "data-testid" "=" "user-message"; ".user-message";
            attr "class" "*=" "user"; ".message-user";
            attr "data-role" "=" "user"; ".human-message" ] [] in
      let conversationMessages :=
        querySelectorAll pg
          (".conversation .message, " +:+ attr "class" "*=" "conversation" +:+ " "
           +:+ attr "class" "*=" "message" +:+ ", " +:+ attr "class" "*=" "chat"
           +:+ " " +:+ attr "class" "*=" "message") in
      pushWhere
        (fun msg =>
           truthy (textContent pg msg)
           && negb (hasDescendant pg msg (attr "class" "*=" "bot"))
           && negb (hasDescendant pg msg (attr "class" "*=" "assistant"))
           && negb (includes (textContent pg msg) (js "Grok:")))
        conversationMessages userMessages
  end.

(** The selector of the inner text-bearing node of a message. *)
Definition textSelector (pf : Platform) : string :=
  match pf with
  | ChatGPT =>
      ".prose, " +:+ attr "class" "*=" "markdown" +:+ ", .whitespace-pre-wrap, .break-words"
  | Perplexity => ".text, .content, .query-text"
  | Claude => ".prose, " +:+ attr "class" "*=" "markdown" +:+ ", .whitespace-pre-wrap"
  | Gemini => ".markdown, .prose, .message-content, .text-content"
  | DeepSeek => ".content, .message-text"
  | Copilot => ".ac-textRun, .message-content, .text-content, p, div"
  | Meta => ".message-text, .content, .text, p, div"
  | Grok =>
      ".prose, " +:+ attr "class" "*=" "markdown" +:+ ", .whitespace-pre-wrap, .message-content"
  end.

(** [message.querySelector(sel) || message]; ChatGPT and DeepSeek have no
    [|| message]. *)
Definition textElement (pf : Platform) (pg : Page) (message : node) : option node :=
  match pf with
  | ChatGPT | DeepSeek => elQuerySelector pg message (textSelector pf)
  | _ => Some (default message (elQuerySelector pg message (textSelector pf)))
  end.

(** The early [return] of the callback: [text.length < 10 || text.match(...)]. *)
Definition skipsText (pf : Platform) (text : jsstring) : bool :=
  match pf with
  | ChatGPT | DeepSeek => false
  | Perplexity => length text <? 10
  | Claude => (length text <? 10) || matchesPrefixCI ["Claude"; "Assistant"; "AI"] ":" text
  | Gemini => (length text <? 10) || matchesPrefixCI ["Gemini"; "Bard"; "AI"] ":" text
  | Copilot => (length text <? 10) || matchesPrefixCI ["Copilot"; "Bing"; "AI"] ":" text
  | Meta => (length text <? 10) || matchesPrefixCI ["Meta"; "AI"; "Bot"] ":" text
  | Grok => (length text <? 10) || matchesPrefixCI ["Grok"; "Bot"; "AI"] ":" text
  end.

Definition questionIdPrefix (pf : Platform) : string :=
  match pf with
  | ChatGPT => "chatgpt-user-"
  | Perplexity => "perplexity-query-"
  | Claude => "claude-user-"
  | Gemini => "gemini-user-"
  | DeepSeek => "deepseek-user-"
  | Copilot => "copilot-user-"
  | Meta => "meta-user-"
  | Grok => "grok-user-"
  end.

Definition syntheticId (pf : Platform) (index : nat) : jsstring :=
  js (questionIdPrefix pf) ++ decimal index.

(** [const messageId = message.id || `...-${index}`; if (!message.id) message.id = messageId;]
    DeepSeek instead assigns [message.id = `deepseek-user-${index}`] always. *)
Definition stampId (pf : Platform) (message : node) (index : nat) (ids : gmap node jsstring)
  : jsstring * gmap node jsstring :=
  match pf with
  | DeepSeek =>
      let messageId := syntheticId pf index in
      (messageId, setElementId ids message messageId)
  | _ =>
      let messageId := js_or (elementId ids message) (syntheticId pf index) in
      (messageId,
       if negb (truthy (elementId ids message))
       then setElementId ids message messageId
       else ids)
  end.

(** The body of [userMessages.forEach((message, index) => ...)]. *)
Definition questionStep (pf : Platform) (pg : Page) (message : node) (index : nat)
    (st : list Question * gmap node jsstring) : list Question * gmap node jsstring :=
  match textElement pf pg message with
  | None => st
  | Some el =>
      let text := trim (textContent pg el) in
      if truthy text then
        if skipsText pf text then st
        else
          let '(messageId, ids) := stampId pf message index st.2 in
          (st.1 ++ [ {| q_id := messageId; q_text := truncate 100 text |} ], ids)
      else st
  end.

(** [getQuestions()]: the questions, and the page's ids after the pass. *)
Definition getQuestions (pf : Platform) (pg : Page) (ids : gmap node jsstring)
  : list Question * gmap node jsstring :=
  forEach (questionStep pf pg) (userMessages pf pg) ([], ids).

(** The candidate history entries a platform's [getChats] iterates over. *)
Definition chatItems (pf : Platform) (pg : Page) : list node :=
  match pf with
  | ChatGPT =>
      querySelectorAll pg
        ("nav a" +:+ attr "href" "*=" "/c/"
         +:+ ", .relative.grow.overflow-hidden.whitespace-nowrap")
  | Perplexity =>
      queryEach pg
        [ "a" +:+ attr "href" "*=" "/search/"; "a" +:+ attr "href" "*=" "/thread/";
          ".thread-item"; ".history-item"; attr "class" "*=" "history" +:+ " a";
          attr "class" "*=" "thread-list" +:+ " a"; ".search-history-item" ] []
  | Claude =>
      queryEach pg
        [ "a" +:+ attr "href" "*=" "/chat/"; ".conversation-item";
          attr "class" "*=" "conversation-list" +:+ " a";
          attr "class" "*=" "sidebar" +:+ " a" +:+ attr "href" "*=" "/chat";
          ".chat-history-item" ] []
  | Gemini =>
      queryEach pg
        [ "a" +:+ attr "href" "*=" "/chat/"; "a" +:+ attr "href" "*=" "/app/";
          ".chat-item"; ".conversation-item"; attr "class" "*=" "history" +:+ " a";
          attr "class" "*=" "recent" +:+ " a"; ".thread-item" ] []
  | DeepSeek =>
      querySelectorAll pg
        (".chat-history-item a, " +:+ attr "data-testid" "=" "chat-history" +:+ " a")
  | Copilot =>
      queryEach pg
        [ "a" +:+ attr "href" "*=" "/chat/"; "a" +:+ attr "href" "*=" "/conversations/";
          ".chat-item"; ".conversation-item"; attr "class" "*=" "history" +:+ " a";
          ".cib-serp-main a"; ".recent-chats a" ] []
  | Meta =>
      queryEach pg
        [ "a" +:+ attr "href" "*=" "/chat/"; "a" +:+ attr "href" "*=" "/conversation/";
          ".chat-item"; ".conversation-item"; attr "class" "*=" "history" +:+ " a";
          attr "class" "*=" "thread-list" +:+ " a"; ".recent-chat" ] []
  | Grok =>
      queryEach pg
        [ "a" +:+ attr "href" "*=" "/chat/"; "a" +:+ attr "href" "*=" "/conversation/";
          ".chat-item"; ".conversation-item"; attr "class" "*=" "chat-list" +:+ " a";
          attr "class" "*=" "sidebar" +:+ " a"; ".history-item" ] []
  end.

(** [a || b || ... || item] over element lookups. *)
Fixpoint firstFound (pg : Page) (item : node) (sels : list string) : node :=
  match sels with
  | [] => item
  | sel :: more =>
      match elQuerySelector pg item sel with
      | Some el => el
      | None => firstFound pg item more
      end
  end.

(** The title-bearing node of a history entry; DeepSeek has no [|| item]. *)
Definition titleElement (pf : Platform) (pg : Page) (item : node) : option node :=
  match pf with
  | ChatGPT =>
      Some (firstFound pg item
              [ ".truncate"; attr "class" "*=" "truncate"; ".overflow-hidden" ])
  | Perplexity =>
      Some (firstFound pg item
              [ ".title, .query, .search-title, " +:+ attr "class" "*=" "title" ])
  | Claude =>
      Some (firstFound pg item
              [ ".truncate"; attr "class" "*=" "truncate"; ".overflow-hidden";
                ".conversation-title" ])
  | Gemini =>
      Some (firstFound pg item
              [ ".title, .chat-title, " +:+ attr "class" "*=" "title"
                +:+ ", .conversation-name" ])
  | DeepSeek => elQuerySelector pg item ".title, .chat-title"
  | Copilot =>
      Some (firstFound pg item
              [ ".title, .chat-title, " +:+ attr "class" "*=" "title" +:+ ", span, div" ])
  | Meta =>
      Some (firstFound pg item
              [ ".title, .chat-title, " +:+ attr "class" "*=" "title"
                +:+ ", .conversation-name, span" ])
  | Grok =>
      Some (firstFound pg item
              [ ".title, .name, .chat-title, " +:+ attr "class" "*=" "title" ])
  end.

(** [item.href]; ChatGPT reads [item.href || item.closest('a')?.href]. *)
Definition itemHref (pf : Platform) (pg : Page) (item : node) : option jsstring :=
  match pf with
  | ChatGPT =>
      if truthy_opt (href pg item) then href pg item
      else
        match closestAnchor pg item with
        | Some a => href pg a
        | None => None
        end
  | _ => href pg item
  end.

(** Copilot's [if (title.match(/^(Home|Settings|Help|About)/i)) return;]. *)
Definition skipsTitle (pf : Platform) (title : jsstring) : bool :=
  match pf with
  | Copilot => matchesPrefixCI ["Home"; "Settings"; "Help"; "About"] "" title
  | _ => false
  end.

Definition chatIdPrefix (pf : Platform) : string :=
  match pf with
  | ChatGPT => "chat-"
  | Perplexity => "perplexity-thread-"
  | Claude => "claude-chat-"
  | Gemini => "gemini-chat-"
  | DeepSeek => "deepseek-chat-"
  | Copilot => "copilot-chat-"
  | Meta => "meta-chat-"
  | Grok => "grok-chat-"
  end.

(** The conversation-id fragment of a navigation target, by the platform's
    path pattern. *)
Definition hrefFragment (pf : Platform) (h : jsstring) : option jsstring :=
  match pf with
  | ChatGPT => reCapture [js "/c/"] isSlash h
  | Perplexity => reCapture [js "/search/"; js "/thread/"] isSlashOrQuery h
  | Claude => reCapture [js "/chat/"] isSlashOrQuery h
  | Gemini => reCapture [js "/chat/"; js "/app/"] isSlashOrQuery h
  | DeepSeek => None
  | Copilot =>
      reCapture [js "/chat/"; js "/conversations/"; js "/conversation/"] isSlashOrQuery h
  | Meta => reCapture [js "/chat/"; js "/conversation/"] isSlashOrQuery h
  | Grok => reCapture [js "/chat/"; js "/conversation/"] isSlashOrQuery h
  end.

(** [let chatId = prefix + index; if (href) { const match = ...; if (match) chatId = prefix + match[k]; }] *)
Definition chatId (pf : Platform) (index : nat) (h : option jsstring) : jsstring :=
  match h with
  | Some h' =>
      if truthy h' then
        match hrefFragment pf h' with
        | Some fragment => js (chatIdPrefix pf) ++ fragment
        | None => js (chatIdPrefix pf) ++ decimal index
        end
      else js (chatIdPrefix pf) ++ decimal index
  | None => js (chatIdPrefix pf) ++ decimal index
  end.

(** The title as stored: ChatGPT and DeepSeek store [title] itself, the
    others [title.length > 50 ? title.substring(0, 50) + '...' : title]. *)
Definition storedTitle (pf : Platform) (title : jsstring) : jsstring :=
  match pf with
  | ChatGPT | DeepSeek => title
  | _ => truncate 50 title
  end.

(** The body of [chatItems.forEach((item, index) => ...)]. *)
Definition chatStep (pf : Platform) (pg : Page) (item : node) (index : nat)
    (chats : list Chat) : list Chat :=
  match titleElement pf pg item with
  | None => chats
  | Some el =>
      let title := trim (textContent pg el) in
      if truthy title then
        let h := itemHref pf pg item in
        if skipsTitle pf title then chats
        else
          chats ++ [ {| c_id := chatId pf index h;
                        c_title := storedTitle pf title;
                        c_url := h |} ]
      else chats
  end.

(** The history scan of [getChats]. *)
Definition historyChats (pf : Platform) (pg : Page) : list Chat :=
  forEach (chatStep pf pg) (chatItems pf pg) [].

(** Claude's [for (const selector of titleSelectors) { ... break; }]. *)
Fixpoint claudeCurrentChat (pg : Page) (titleSelectors : list string) : list Chat :=
  match titleSelectors with
  | [] => []
  | selector :: more =>
      match querySelector pg selector with
      | Some el =>
          let title := trim (textContent pg el) in
          if truthy title then
            if truthy title
               && negb (bool_decide (title = js "Claude"))
               && negb (matchesPrefixCI ["New"; "Untitled"] "" title)
            then [ {| c_id := js "claude-current-chat";
                      c_title := truncate 50 title;
                      c_url := Some (location_href pg) |} ]
            else claudeCurrentChat pg more
          else claudeCurrentChat pg more
      | None => claudeCurrentChat pg more
      end
  end.

(** A heading-based current-conversation entry, for the platforms that query
    one heading node: [if (el && el.textContent.trim() && !rejected(el.textContent))]. *)
Definition headingChat (pg : Page) (sel : string) (rejected : jsstring -> bool)
    (id : string) : list Chat :=
  match querySelector pg sel with
  | Some el =>
      if truthy (trim (textContent pg el)) && negb (rejected (textContent pg el))
      then [ {| c_id := js id;
                c_title := trim (textContent pg el);
                c_url := Some (location_href pg) |} ]
      else []
  | None => []
  end.

(** What [getChats] pushes inside [if (chats.length === 0) { ... }]. *)
Definition currentChat (pf : Platform) (pg : Page) : list Chat :=
  match pf with
  | ChatGPT =>
      headingChat pg
        ("h1, .text-xl, .text-lg, " +:+ attr "class" "*=" "conversation-title")
        (fun _ => false) "current-chat"
  | Perplexity =>
      match querySelector pg
              ("input" +:+ attr "type" "=" "text" +:+ ", .search-input, "
               +:+ attr "placeholder" "*=" "search" +:+ ", "
               +:+ attr "placeholder" "*=" "Ask") with
      | Some currentQuery =>
          match value pg currentQuery with
          | Some v =>
              if truthy v
              then [ {| c_id := js "perplexity-current-search";
                        c_title := v;
                        c_url := Some (location_href pg) |} ]
              else []
          | None => []
          end
      | None => []
      end
  | Claude =>
      claudeCurrentChat pg
        [ "h1"; ".conversation-title"; attr "class" "*=" "title"; ".text-xl"; ".text-lg" ]
  | Gemini =>
      headingChat pg
        ("h1, .conversation-title, .chat-title, " +:+ attr "class" "*=" "title")
        (fun t => includes t (js "Gemini")) "gemini-current-chat"
  | DeepSeek => []
  | Copilot =>
      headingChat pg
        ("h1, .conversation-title, " +:+ attr "class" "*=" "title" +:+ ":not(.page-title)")
        (fun t => includes t (js "Copilot") || includes t (js "Bing"))
        "copilot-current-chat"
  | Meta =>
      headingChat pg
        ("h1, .conversation-title, .page-title, " +:+ attr "class" "*=" "title")
        (fun t => includes t (js "Meta AI")) "meta-current-chat"
  | Grok =>
      headingChat pg "h1, .page-title, .conversation-title"
        (fun _ => false) "grok-current-chat"
  end.

(** [getChats()]. *)
Definition getChats (pf : Platform) (pg : Page) : list Chat :=
  let chats := historyChats pf pg in
  if length chats =? 0 then chats ++ currentChat pf pg else chats.

(** ** Navigator controller *)

(** *** Escaping and rendering *)

(** The children a [div] can have here: [div.textContent = text] leaves at
    most one Text node. *)
Inductive ChildNode := TextNode (data : jsstring).

(** [div.textContent = text]: all children are replaced by one Text node
    holding [text], or by nothing when [text] is empty. *)
Definition setTextContent (text : jsstring) : list ChildNode :=
  if truthy text then [TextNode text] else [].

(** Escaping of one code unit of a Text node when the fragment is
    serialised: [&], no-break space, [<] and [>] become character
    references; a double quote stays as it is outside attribute values. *)
Definition escapeUnit (c : N) : jsstring :=
  if (c =? 38)%N then js "&amp;"
  else if (c =? 160)%N then js "&nbsp;"
  else if (c =? 60)%N then js "&lt;"
  else if (c =? 62)%N then js "&gt;"
  else [c].

Definition escapeString (data : jsstring) : jsstring :=
  concat (escapeUnit <$> data).

(** [div.innerHTML]: the serialisation of the children. *)
Definition innerHTML (children : list ChildNode) : jsstring :=
  concat ((fun child => match child with TextNode data => escapeString data end) <$> children).

(** [escapeHtml(text)]:
    [const div = document.createElement('div'); div.textContent = text; return div.innerHTML;] *)
Definition escapeHtml (text : jsstring) : jsstring :=
  innerHTML (setTextContent text).

Definition nl : string := String (ascii_of_nat 10) EmptyString.

(** The row template shared by [renderQuestions] and [renderChats]; the id is
    interpolated as it is, the text is interpolated escaped by the caller. *)
Definition rowOpen : jsstring :=
  js (nl +:+ "      <div class=" +:+ dq +:+ "nav-item" +:+ dq +:+ " data-element-id=" +:+ dq).

Definition rowMiddle : jsstring :=
  js (dq +:+ ">" +:+ nl +:+ "        <div class=" +:+ dq +:+ "nav-item-text" +:+ dq +:+ ">").

Definition rowClose : jsstring :=
  js ("</div>" +:+ nl +:+ "      </div>" +:+ nl +:+ "    ").

Definition navItem (id : jsstring) (escapedText : jsstring) : jsstring :=
  rowOpen ++ id ++ rowMiddle ++ escapedText ++ rowClose.

Definition emptyState (message : string) : jsstring :=
  js ("<div class=" +:+ dq +:+ "empty-state" +:+ dq +:+ ">" +:+ message +:+ "</div>").

(** [renderQuestions()]: the markup assigned to the questions panel's
    [innerHTML]. *)
Definition renderQuestions (questions : list Question) : jsstring :=
  if length questions =? 0 then emptyState "No questions found"
  else concat ((fun question => navItem (q_id question) (escapeHtml (q_text question)))
                 <$> questions).

(** [renderChats()]: the markup assigned to the chats panel's [innerHTML]. *)
Definition renderChats (chats : list Chat) : jsstring :=
  if length chats =? 0 then emptyState "No chats found"
  else concat ((fun chat => navItem (c_id chat) (escapeHtml (c_title chat))) <$> chats).

(** How the host reads markup back as character data: a [<] starts markup
    (no text reading exists, [None]), a character reference is decoded, any
    other unit stands for itself.  Only the four references the serialiser
    writes are known here; another [&] is left unread ([None]). *)
Fixpoint readCharacterData (fuel : nat) (markup : jsstring) : option jsstring :=
  match fuel with
  | 0 => None
  | S fuel' =>
      match markup with
      | [] => Some []
      | c :: rest =>
          if (c =? 60)%N then None
          else if (c =? 38)%N then
            if startsWith (js "amp;") rest
            then cons 38%N <$> readCharacterData fuel' (drop 4 rest)
            else if startsWith (js "nbsp;") rest
            then cons 160%N <$> readCharacterData fuel' (drop 5 rest)
            else if startsWith (js "lt;") rest
            then cons 60%N <$> readCharacterData fuel' (drop 3 rest)
            else if startsWith (js "gt;") rest
            then cons 62%N <$> readCharacterData fuel' (drop 3 rest)
            else None
          else cons c <$> readCharacterData fuel' rest
      end
  end.

Definition asCharacterData (markup : jsstring) : option jsstring :=
  readCharacterData (S (length markup)) markup.

(** How the host reads a double-quoted attribute value back from markup: the
    units up to the next double quote.  Character references inside the
    value are not modelled: a value containing [&] is left unread ([None]),
    and so is markup that ends before the closing quote. *)
Fixpoint readAttributeValue (markup : jsstring) : option jsstring :=
  match markup with
  | [] => None
  | c :: rest =>
      if (c =? 34)%N then Some []
      else if (c =? 38)%N then None
      else cons c <$> readAttributeValue rest
  end.

(** *** The controller object and the host it runs in *)

(** The two panels, [data-type] / [data-panel] being ['questions'] or ['chats']. *)
Inductive Kind := Questions | Chats.

Definition Kind_eqb (a b : Kind) : bool :=
  match a, b with
  | Questions, Questions | Chats, Chats => true
  | _, _ => false
  end.

(** The overlay built by [createUI]: the class [active] of each button, the
    class [show] of each panel, and the markup of each [.panel-content]. *)
Record Container := {
  questionsButtonActive : bool;
  chatsButtonActive : bool;
  questionsPanelShow : bool;
  chatsPanelShow : bool;
  questionsContent : jsstring;
  chatsContent : jsstring
}.

(** The fields of a [ChatNavigatorUI] instance. *)
Record ChatNavigatorUI := {
  parser : Platform;
  container : Container;
  activePanel : option Kind;
  questions : list Question;
  chats : list Chat;
  updateTimeout : option nat
}.

(** What a timer does when it fires: the debounced refresh, or the end of a
    highlight. *)
Inductive Task := Refresh | Unhighlight (element : node).

Record Timer := { handle : nat; due : Z; task : Task }.

(** The host: the page and its ids, the elements in tree order, the lookup of
    a selector built at run time ([None]: the host rejects the selector text
    and throws), the clock, the pending timers, the scroll requests made so
    far and the inline styles written. *)
Record Host := {
  page : Page;
  ids : gmap node jsstring;
  elements : list node;
  querySelectorRuntime : jsstring -> option (option node);
  now : Z;
  timers : list Timer;
  nextHandle : nat;
  scrolledIntoView : list node;
  styleTransition : gmap node jsstring;
  styleBackgroundColor : gmap node jsstring
}.

Definition World : Type := Host * ChatNavigatorUI.

(** A call either returns or throws; both leave a state behind. *)
Inductive Outcome (A : Type) := Returned (a : A) | Thrown (a : A).
Arguments Returned {A} a.
Arguments Thrown {A} a.

Definition stateOf {A : Type} (o : Outcome A) : A :=
  match o with Returned a | Thrown a => a end.

Definition set_ids (v : gmap node jsstring) (h : Host) : Host :=
  {| page := page h; ids := v; elements := elements h;
     querySelectorRuntime := querySelectorRuntime h; now := now h;
     timers := timers h; nextHandle := nextHandle h;
     scrolledIntoView := scrolledIntoView h;
     styleTransition := styleTransition h;
     styleBackgroundColor := styleBackgroundColor h |}.

Definition set_now (v : Z) (h : Host) : Host :=
  {| page := page h; ids := ids h; elements := elements h;
     querySelectorRuntime := querySelectorRuntime h; now := v;
     timers := timers h; nextHandle := nextHandle h;
     scrolledIntoView := scrolledIntoView h;
     styleTransition := styleTransition h;
     styleBackgroundColor := styleBackgroundColor h |}.

Definition set_timers (v : list Timer) (next : nat) (h : Host) : Host :=
  {| page := page h; ids := ids h; elements := elements h;
     querySelectorRuntime := querySelectorRuntime h; now := now h;
     timers := v; nextHandle := next;
     scrolledIntoView := scrolledIntoView h;
     styleTransition := styleTransition h;
     styleBackgroundColor := styleBackgroundColor h |}.

Definition set_scrolledIntoView (v : list node) (h : Host) : Host :=
  {| page := page h; ids := ids h; elements := elements h;
     querySelectorRuntime := querySelectorRuntime h; now := now h;
     timers := timers h; nextHandle := nextHandle h;
     scrolledIntoView := v;
     styleTransition := styleTransition h;
     styleBackgroundColor := styleBackgroundColor h |}.

Definition set_style (tr bg : gmap node jsstring) (h : Host) : Host :=
  {| page := page h; ids := ids h; elements := elements h;
     querySelectorRuntime := querySelectorRuntime h; now := now h;
     timers := timers h; nextHandle := nextHandle h;
     scrolledIntoView := scrolledIntoView h;
     styleTransition := tr;
     styleBackgroundColor := bg |}.

Definition set_container (v : Container) (ui : ChatNavigatorUI) : ChatNavigatorUI :=
  {| parser := parser ui; container := v; activePanel := activePanel ui;
     questions := questions ui; chats := chats ui; updateTimeout := updateTimeout ui |}.

Definition set_activePanel (v : option Kind) (ui : ChatNavigatorUI) : ChatNavigatorUI :=
  {| parser := parser ui; container := container ui; activePanel := v;
     questions := questions ui; chats := chats ui; updateTimeout := updateTimeout ui |}.

Definition set_lists (qs : list Question) (cs : list Chat) (ui : ChatNavigatorUI) : ChatNavigatorUI :=
  {| parser := parser ui; container := container ui; activePanel := activePanel ui;
     questions := qs; chats := cs; updateTimeout := updateTimeout ui |}.

Definition set_updateTimeout (v : option nat) (ui : ChatNavigatorUI) : ChatNavigatorUI :=
  {| parser := parser ui; container := container ui; activePanel := activePanel ui;
     questions := questions ui; chats := chats ui; updateTimeout := v |}.

(** [setTimeout(task, delay)]: a fresh handle, due [delay] after now. *)
Definition setTimeout (tk : Task) (delay : Z) (h : Host) : nat * Host :=
  (nextHandle h,
   set_timers (timers h ++ [ {| handle := nextHandle h; due := (now h + delay)%Z; task := tk |} ])
              (S (nextHandle h)) h).

(** [clearTimeout(handle)]: nothing happens for [undefined] or for a handle
    that is no longer pending. *)
Definition clearTimeout (o : option nat) (h : Host) : Host :=
  match o with
  | None => h
  | Some k => set_timers (List.filter (fun t => negb (handle t =? k)) (timers h)) (nextHandle h) h
  end.

(** *** Panels *)

Definition buttonActive (c : Container) (k : Kind) : bool :=
  match k with Questions => questionsButtonActive c | Chats => chatsButtonActive c end.

Definition panelShow (c : Container) (k : Kind) : bool :=
  match k with Questions => questionsPanelShow c | Chats => chatsPanelShow c end.

(** [button.classList.add('active'); panel.classList.add('show')] for the
    button and panel of one kind. *)
Definition openPanel (k : Kind) (c : Container) : Container :=
  match k with
  | Questions =>
      {| questionsButtonActive := true; chatsButtonActive := chatsButtonActive c;
         questionsPanelShow := true; chatsPanelShow := chatsPanelShow c;
         questionsContent := questionsContent c; chatsContent := chatsContent c |}
  | Chats =>
      {| questionsButtonActive := questionsButtonActive c; chatsButtonActive := true;
         questionsPanelShow := questionsPanelShow c; chatsPanelShow := true;
         questionsContent := questionsContent c; chatsContent := chatsContent c |}
  end.

(** Removal of [active] from every button and of [show] from every panel. *)
Definition closePanels (c : Container) : Container :=
  {| questionsButtonActive := false; chatsButtonActive := false;
     questionsPanelShow := false; chatsPanelShow := false;
     questionsContent := questionsContent c; chatsContent := chatsContent c |}.

(** [closeAllPanels()]. *)
Definition closeAllPanels (ui : ChatNavigatorUI) : ChatNavigatorUI :=
  set_container (closePanels (container ui)) (set_activePanel None ui).

(** [this.activePanel === type]. *)
Definition isActivePanel (ui : ChatNavigatorUI) (type : Kind) : bool :=
  match activePanel ui with
  | Some k => Kind_eqb k type
  | None => false
  end.

(** [togglePanel(type)]. *)
Definition togglePanel (type : Kind) (ui : ChatNavigatorUI) : ChatNavigatorUI :=
  if isActivePanel ui type then closeAllPanels ui
  else
    let ui := closeAllPanels ui in
    let ui := set_activePanel (Some type) ui in
    set_container (openPanel type (container ui)) ui.

(** *** Refresh *)

Definition setContents (qs cs : jsstring) (c : Container) : Container :=
  {| questionsButtonActive := questionsButtonActive c;
     chatsButtonActive := chatsButtonActive c;
     questionsPanelShow := questionsPanelShow c;
     chatsPanelShow := chatsPanelShow c;
     questionsContent := qs; chatsContent := cs |}.

(** [updateContent()]: both parser operations, then both renders. *)
Definition updateContent (w : World) : World :=
  let '(h, ui) := w in
  let '(qs, ids') := getQuestions (parser ui) (page h) (ids h) in
  let cs := getChats (parser ui) (page h) in
  let ui := set_lists qs cs ui in
  (set_ids ids' h,
   set_container (setContents (renderQuestions (questions ui)) (renderChats (chats ui))
                              (container ui)) ui).

(** The [MutationObserver] callback of [startObserver]:
    [clearTimeout(this.updateTimeout); this.updateTimeout = setTimeout(() => this.updateContent(), 500);] *)
Definition onMutation (w : World) : World :=
  let '(h, ui) := w in
  let h := clearTimeout (updateTimeout ui) h in
  let '(k, h) := setTimeout Refresh 500 h in
  (h, set_updateTimeout (Some k) ui).

(** *** Selection *)

(** [document.getElementById(id)]: the first element in tree order carrying
    that id; the empty string names no element. *)
Definition getElementById (h : Host) (id : jsstring) : option node :=
  if truthy id
  then List.find (fun n => bool_decide (elementId (ids h) n = id)) (elements h)
  else None.

(** The selector text [`[data-id="${elementId}"]`]. *)
Definition dataIdSelector (elementId : jsstring) : jsstring :=
  js ("[data-id=" +:+ dq) ++ elementId ++ js (dq +:+ "]").

(** The body of [if (element) { ... }]: scroll, highlight, and the timer that
    ends the highlight after 2000ms. *)
Definition scrollAndHighlight (element : node) (h : Host) : Host :=
  let h := set_scrolledIntoView (scrolledIntoView h ++ [element]) h in
  let h := set_style (<[element := js "background-color 0.3s ease"]> (styleTransition h))
                     (<[element := js "rgba(59, 130, 246, 0.1)"]> (styleBackgroundColor h)) h in
  (setTimeout (Unhighlight element) 2000 h).2.

(** [scrollToElement(elementId)]. *)
Definition scrollToElement (elementId : jsstring) (h : Host) : Outcome Host :=
  match getElementById h elementId with
  | Some element => Returned (scrollAndHighlight element h)
  | None =>
      match querySelectorRuntime h (dataIdSelector elementId) with
      | None => Thrown h
      | Some None => Returned h
      | Some (Some element) => Returned (scrollAndHighlight element h)
      end
  end.

(** The click handler of a rendered row:
    [this.scrollToElement(elementId); this.closeAllPanels();] *)
Definition rowClick (elementId : jsstring) (w : World) : Outcome World :=
  let '(h, ui) := w in
  match scrollToElement elementId h with
  | Returned h' => Returned (h', closeAllPanels ui)
  | Thrown h' => Thrown (h', ui)
  end.

(** *** Events and timers *)

(** What reaches the controller: a click on one of the two buttons, on a
    rendered row (which carries [data-element-id]) or outside the overlay, a
    key press, and an invocation of the [MutationObserver] callback.  A
    [Mutation] stands for one invocation whatever caused the change, be it
    the page or the controller's own rewriting of its panels, which lie
    inside the observed [document.body]. *)
Inductive Event :=
  | ButtonClick (type : Kind)
  | RowClick (elementId : jsstring)
  | OutsideClick
  | KeyDown (key : jsstring)
  | Mutation.

(** The document-level click handler:
    [if (!this.container.contains(e.target)) this.closeAllPanels();] *)
Definition documentClick (inside : bool) (w : World) : World :=
  if negb inside then (w.1, closeAllPanels w.2) else w.

(** The document-level keydown handler. *)
Definition documentKeyDown (key : jsstring) (w : World) : World :=
  if bool_decide (key = js "Escape") then (w.1, closeAllPanels w.2) else w.

(** One event, through every listener it reaches.  A listener that throws is
    abandoned where it stands; the listeners after it still run. *)
Definition dispatch (e : Event) (w : World) : World :=
  match e with
  | ButtonClick type => documentClick true (w.1, togglePanel type w.2)
  | RowClick elementId => documentClick true (stateOf (rowClick elementId w))
  | OutsideClick => documentClick false w
  | KeyDown key => documentKeyDown key w
  | Mutation => onMutation w
  end.

Definition runTask (tk : Task) (w : World) : World :=
  match tk with
  | Refresh => updateContent w
  | Unhighlight element =>
      (set_style (styleTransition w.1) (<[element := []]> (styleBackgroundColor w.1)) w.1, w.2)
  end.

(** The pending timer that fires next: the earliest due one, the oldest among
    equals. *)
Fixpoint earliest (best : option Timer) (l : list Timer) : option Timer :=
  match l with
  | [] => best
  | x :: r =>
      earliest (match best with
                | None => Some x
                | Some b => if (due x <? due b)%Z then Some x else Some b
                end) r
  end.

Definition nextDue (t : Z) (l : list Timer) : option Timer :=
  earliest None (List.filter (fun x => (due x <=? t)%Z) l).

(** One timer fires: it leaves the pending timers, the clock reaches its due
    time, and its task runs. *)
Definition fire (tm : Timer) (w : World) : World :=
  let h := set_timers (List.filter (fun x => negb (handle x =? handle tm)) (timers w.1))
                      (nextHandle w.1) w.1 in
  let h := set_now (Z.max (now h) (due tm)) h in
  runTask (task tm) (h, w.2).

(** Fires, in order, the timers due by time [t]; the trace records when each
    task ran. *)
Fixpoint fireDue (fuel : nat) (t : Z) (w : World) : World * list (Z * Task) :=
  match fuel with
  | 0 => (w, [])
  | S fuel' =>
      match nextDue t (timers w.1) with
      | None => (w, [])
      | Some tm =>
          let w1 := fire tm w in
          let '(w2, tr) := fireDue fuel' t w1 in
          (w2, (now w1.1, task tm) :: tr)
      end
  end.

(** Time passes until [t]. *)
Definition advanceTo (t : Z) (w : World) : World * list (Z * Task) :=
  let '(w', tr) := fireDue (length (timers w.1)) t w in
  ((set_now (Z.max (now w'.1) t) w'.1, w'.2), tr).

(** A timeline of timestamped events; the timers due before an event fire
    before it. *)
Fixpoint run (timeline : list (Z * Event)) (w : World) : World * list (Z * Task) :=
  match timeline with
  | [] => (w, [])
  | (t, e) :: rest =>
      let '(w1, tr1) := advanceTo t w in
      let '(w2, tr2) := run rest (dispatch e w1) in
      (w2, tr1 ++ tr2)
  end.

(** The refreshes of a trace. *)
Definition refreshes (tr : list (Z * Task)) : list Z :=
  omap (fun x => match x.2 with Refresh => Some x.1 | Unhighlight _ => None end) tr.

(** The container as [createUI] builds it. *)
Definition createUI : Container :=
  {| questionsButtonActive := false; chatsButtonActive := false;
     questionsPanelShow := false; chatsPanelShow := false;
     questionsContent :=
       js (nl +:+ "          ") ++ emptyState "No questions found" ++ js (nl +:+ "        ");
     chatsContent :=
       js (nl +:+ "          ") ++ emptyState "No chats found" ++ js (nl +:+ "        ") |}.

(** [new ChatNavigatorUI(parser)]: the constructor's assignments, then
    [init()], whose last step is the first [updateContent()]. *)
Definition newChatNavigatorUI (pf : Platform) (h : Host) : World :=
  updateContent
    (h, {| parser := pf; container := createUI; activePanel := None;
           questions := []; chats := []; updateTimeout := None |}).

(** ** Notions the properties are stated with *)

(** The text a question candidate resolves to: the trimmed text of its inner
    text-bearing node, when it has one. *)
Definition resolvedText (pf : Platform) (pg : Page) (message : node) : option jsstring :=
  (fun el => trim (textContent pg el)) <$> textElement pf pg message.

(** The title text a history entry resolves to. *)
Definition resolvedTitle (pf : Platform) (pg : Page) (item : node) : option jsstring :=
  (fun el => trim (textContent pg el)) <$> titleElement pf pg item.

(** The ellipsis marker. *)
Definition marker : jsstring := js "...".

(** The truncation law as the code keeps it: short text is stored as it is;
    longer text is stored as its first [cap] units followed by the marker. *)
Definition truncatedTo (cap : nat) (T stored : jsstring) : Prop :=
  length stored <= cap + length marker /\
  (length T <= cap -> stored = T) /\
  (cap < length T ->
   exists p, stored = p ++ marker /\ length p = cap /\ p `prefix_of` T).

(** The platforms whose history titles are cut to 50 units. *)
Definition truncatesTitles (pf : Platform) : bool :=
  match pf with
  | ChatGPT | DeepSeek => false
  | _ => true
  end.

(** The candidates of a list with their positions, counted from [i]. *)
Fixpoint indexedFrom {A : Type} (i : nat) (l : list A) : list (nat * A) :=
  match l with
  | [] => []
  | x :: r => (i, x) :: indexedFrom (S i) r
  end.

(** The text an accepted candidate contributes: it has an inner text node,
    the trimmed text is not empty, and the platform's filter lets it pass. *)
Definition accepted (pf : Platform) (pg : Page) (message : node) : option jsstring :=
  match resolvedText pf pg message with
  | Some T => if truthy T && negb (skipsText pf T) then Some T else None
  | None => None
  end.

(** The accepted candidates of a list, each with its position and its text. *)
Definition acceptedFrom (pf : Platform) (pg : Page) (i : nat) (l : list node)
  : list (nat * node * jsstring) :=
  omap (fun c => (fun T => (c.1, c.2, T)) <$> accepted pf pg c.2) (indexedFrom i l).

(** The accepted candidates of a pass. *)
Definition acceptedCandidates (pf : Platform) (pg : Page) : list (nat * node * jsstring) :=
  acceptedFrom pf pg 0 (userMessages pf pg).

(** Id assignment along the accepted candidates, the ids threaded through. *)
Fixpoint stampAll (pf : Platform) (l : list (nat * node * jsstring)) (ids : gmap node jsstring)
  : list Question * gmap node jsstring :=
  match l with
  | [] => ([], ids)
  | c :: r =>
      let s := stampId pf c.1.2 c.1.1 ids in
      let rest := stampAll pf r s.2 in
      ({| q_id := s.1; q_text := truncate 100 c.2 |} :: rest.1, rest.2)
  end.

(** The history entry at a position, when the scan accepts it. *)
Definition chatAt (pf : Platform) (pg : Page) (c : nat * node) : option Chat :=
  match resolvedTitle pf pg c.2 with
  | Some title =>
      if truthy title && negb (skipsTitle pf title)
      then Some {| c_id := chatId pf c.1 (itemHref pf pg c.2);
                   c_title := storedTitle pf title;
                   c_url := itemHref pf pg c.2 |}
      else None
  | None => None
  end.

(** The minimum signal length a platform's [getQuestions] enforces: ChatGPT
    and DeepSeek have no length test. *)
Definition minimumSignalLength (pf : Platform) : nat :=
  match pf with
  | ChatGPT | DeepSeek => 0
  | _ => 10
  end.

(** The platform's "this is the assistant speaking" test on a candidate's
    text. *)
Definition assistantSpeech (pf : Platform) (T : jsstring) : bool :=
  match pf with
  | ChatGPT | DeepSeek | Perplexity => false
  | Claude => matchesPrefixCI ["Claude"; "Assistant"; "AI"] ":" T
  | Gemini => matchesPrefixCI ["Gemini"; "Bard"; "AI"] ":" T
  | Copilot => matchesPrefixCI ["Copilot"; "Bing"; "AI"] ":" T
  | Meta => matchesPrefixCI ["Meta"; "AI"; "Bot"] ":" T
  | Grok => matchesPrefixCI ["Grok"; "Bot"; "AI"] ":" T
  end.

(** A candidate text is kept when it is not empty, reaches the minimum
    signal length and is not assistant speech. *)
Definition keepsText (pf : Platform) (T : jsstring) : bool :=
  truthy T && (minimumSignalLength pf <=? length T) && negb (assistantSpeech pf T).

(** Whether [getQuestions] reuses an id already on the element. *)
Definition reusesId (pf : Platform) : bool :=
  match pf with
  | DeepSeek => false
  | _ => true
  end.

(** The selectors [getChats] looks for a current-conversation title under,
    when the history scan found nothing. *)
Definition currentChatSelectors (pf : Platform) : list string :=
  match pf with
  | ChatGPT => [ "h1, .text-xl, .text-lg, " +:+ attr "class" "*=" "conversation-title" ]
  | Perplexity =>
      [ "input" +:+ attr "type" "=" "text" +:+ ", .search-input, "
        +:+ attr "placeholder" "*=" "search" +:+ ", " +:+ attr "placeholder" "*=" "Ask" ]
  | Claude => [ "h1"; ".conversation-title"; attr "class" "*=" "title"; ".text-xl"; ".text-lg" ]
  | Gemini => [ "h1, .conversation-title, .chat-title, " +:+ attr "class" "*=" "title" ]
  | DeepSeek => []
  | Copilot =>
      [ "h1, .conversation-title, " +:+ attr "class" "*=" "title" +:+ ":not(.page-title)" ]
  | Meta => [ "h1, .conversation-title, .page-title, " +:+ attr "class" "*=" "title" ]
  | Grok => [ "h1, .page-title, .conversation-title" ]
  end.

Definition currentChatId (pf : Platform) : string :=
  match pf with
  | ChatGPT => "current-chat"
  | Perplexity => "perplexity-current-search"
  | Claude => "claude-current-chat"
  | Gemini => "gemini-current-chat"
  | DeepSeek => ""
  | Copilot => "copilot-current-chat"
  | Meta => "meta-current-chat"
  | Grok => "grok-current-chat"
  end.

(** The brand names a platform's fallback looks for in the heading; ChatGPT,
    Perplexity, DeepSeek and Grok look for none. *)
Definition brandNames (pf : Platform) : list string :=
  match pf with
  | Claude => ["Claude"]
  | Gemini => ["Gemini"]
  | Copilot => ["Copilot"; "Bing"]
  | Meta => ["Meta AI"]
  | _ => []
  end.

(** How a synthesized title derives from the node it is taken from. *)
Definition synthesizedFrom (pf : Platform) (pg : Page) (el : node) (title : jsstring) : Prop :=
  match pf with
  | Perplexity => value pg el = Some title
  | Claude =>
      title = truncate 50 (trim (textContent pg el)) /\
      trim (textContent pg el) <> js "Claude" /\
      matchesPrefixCI ["New"; "Untitled"] "" (trim (textContent pg el)) = false
  | DeepSeek => False
  | _ =>
      title = trim (textContent pg el) /\
      Forall (fun brand => includes (textContent pg el) (js brand) = false) (brandNames pf)
  end.


(** The panel that is not [k]. *)
Definition otherPanel (k : Kind) : Kind :=
  match k with Questions => Chats | Chats => Questions end.

(** Both panels are closed. *)
Definition bothClosed (ui : ChatNavigatorUI) : Prop :=
  panelShow (container ui) Questions = false /\ panelShow (container ui) Chats = false.

(** The classes on the overlay agree with [activePanel]: a panel shows, and
    its button is active, exactly when it is the active panel. *)
Definition panelsAgree (ui : ChatNavigatorUI) : Prop :=
  forall k, panelShow (container ui) k = isActivePanel ui k /\
            buttonActive (container ui) k = isActivePanel ui k.



(** Change notifications at the given times. *)
Definition notifications (ts : list Z) : list (Z * Event) :=
  (fun t => (t, Mutation)) <$> ts.

(** The tasks that ran, with their times, when a timeline is played and time
    then passes until [horizon]. *)
Definition runUntil (horizon : Z) (timeline : list (Z * Event)) (w : World) : World * list (Z * Task) :=
  ((advanceTo horizon (run timeline w).1).1,
   (run timeline w).2 ++ (advanceTo horizon (run timeline w).1).2).

Definition isRefresh (tk : Task) : bool :=
  match tk with Refresh => true | Unhighlight _ => false end.

(** Every pending timer has a handle below the next one to be given out. *)
Definition handlesFresh (h : Host) : Prop :=
  Forall (fun tm => handle tm < nextHandle h) (timers h).

(** No refresh is pending. *)
Definition idle (w : World) : Prop :=
  handlesFresh w.1 /\ Forall (fun tm => isRefresh (task tm) = false) (timers w.1).


(** ** Concrete pages *)

(** A text of [n] units. *)
Definition textOfLength (n : nat) : jsstring := replicate n 97%N.

(** A page with nothing on it. *)
Definition blankPage : Page :=
  {| querySelectorAll := fun _ => [];
     elQuerySelector := fun _ _ => None;
     textContent := fun _ => [];
     href := fun _ => None;
     closestAnchor := fun _ => None;
     value := fun _ => None;
     classListContains := fun _ _ => false;
     location_href := js "https://example.test/c/42" |}.

(** A conversation: the selector [sel] matches the messages [0, 1, ...];
    message [n] has the inner text node [100 + n] under [textSel], holding the
    [n]-th of [texts]. *)
Definition conversationPage (sel textSel : string) (texts : list jsstring) : Page :=
  {| querySelectorAll := fun s => if String.eqb s sel then seq 0 (length texts) else [];
     elQuerySelector := fun n s => if String.eqb s textSel then Some (100 + n) else None;
     textContent := fun n => default [] (texts !! (n - 100));
     href := fun _ => None;
     closestAnchor := fun _ => None;
     value := fun _ => None;
     classListContains := fun _ _ => false;
     location_href := js "https://example.test/c/42" |}.

(** One ChatGPT user message of 101 units. *)
Definition chatgptLongMessage : Page :=
  conversationPage (attr "data-message-author-role" "=" "user") (textSelector ChatGPT)
    [textOfLength 101].

(** Scenario A on Grok: three user messages of 5, 50 and 150 units. *)
Definition scenarioA : Page :=
  conversationPage ".user-message" (textSelector Grok)
    [textOfLength 5; textOfLength 50; textOfLength 150].

(** The same three messages on ChatGPT. *)
Definition scenarioA_chatgpt : Page :=
  conversationPage (attr "data-message-author-role" "=" "user") (textSelector ChatGPT)
    [textOfLength 5; textOfLength 50; textOfLength 150].

(** A sidebar: the selector [sel] matches the anchors [0, 1, ...], anchor [n]
    carrying the [n]-th title as its own text and the [n]-th target. *)
Definition sidebarPage (sel : string) (entries : list (jsstring * jsstring)) : Page :=
  {| querySelectorAll := fun s => if String.eqb s sel then seq 0 (length entries) else [];
     elQuerySelector := fun _ _ => None;
     textContent := fun n => default [] (fst <$> entries !! n);
     href := fun n => snd <$> entries !! n;
     closestAnchor := fun _ => None;
     value := fun _ => None;
     classListContains := fun _ _ => false;
     location_href := js "https://example.test/c/42" |}.

(** One ChatGPT history entry with a title of 60 units. *)
Definition chatgptLongTitle : Page :=
  sidebarPage
    ("nav a" +:+ attr "href" "*=" "/c/" +:+ ", .relative.grow.overflow-hidden.whitespace-nowrap")
    [(textOfLength 60, js "https://chatgpt.com/c/abc123")].

(** One Claude history entry with a title of 60 units. *)
Definition claudeLongTitle : Page :=
  sidebarPage ("a" +:+ attr "href" "*=" "/chat/")
    [(textOfLength 60, js "https://claude.ai/chat/abc123?x=1")].

(** Scenario B: no history entry, one heading "Project Plan" (node 7), which
    every selector list starting with [h1] finds. *)
Definition scenarioB : Page :=
  {| querySelectorAll := fun s => if String.prefix "h1" s then [7] else [];
     elQuerySelector := fun _ _ => None;
     textContent := fun n => if n =? 7 then js "  Project Plan " else [];
     href := fun _ => None;
     closestAnchor := fun _ => None;
     value := fun _ => None;
     classListContains := fun _ _ => false;
     location_href := js "https://example.test/c/42" |}.

(** No history entry, and a heading that only names the platform. *)
Definition brandHeading (brand : string) : Page :=
  {| querySelectorAll := fun s => if String.prefix "h1" s then [7] else [];
     elQuerySelector := fun _ _ => None;
     textContent := fun n => if n =? 7 then js brand else [];
     href := fun _ => None;
     closestAnchor := fun _ => None;
     value := fun _ => None;
     classListContains := fun _ _ => false;
     location_href := js "https://example.test/c/42" |}.

(** One DeepSeek user message of 20 units, on an element that already has
    the id "msg-7". *)
Definition deepseekStamped : Page :=
  conversationPage (".user-message, " +:+ attr "data-author" "=" "user") (textSelector DeepSeek)
    [textOfLength 20].

Definition deepseekStampedIds : gmap node jsstring := {[ 0 := js "msg-7" ]}.


(** Scenario A on Grok where the second message already has the id "m-1". *)
Definition scenarioA_ids : gmap node jsstring := {[ 1 := js "m-1" ]}.

(** A host around a page: nothing scrolled, no timer pending, the clock at 0,
    and a run-time selector lookup that finds nothing. *)
Definition hostOf (pg : Page) (stamped : gmap node jsstring) (els : list node) : Host :=
  {| page := pg; ids := stamped; elements := els;
     querySelectorRuntime := fun _ => Some None;
     now := 0%Z; timers := []; nextHandle := 0;
     scrolledIntoView := []; styleTransition := ∅; styleBackgroundColor := ∅ |}.

(** The fields of a controller as the constructor sets them, before [init()]
    runs the first refresh. *)
Definition constructed (pf : Platform) : ChatNavigatorUI :=
  {| parser := pf; container := createUI; activePanel := None;
     questions := []; chats := []; updateTimeout := None |}.

(** A Grok page whose one user message (node 0, text node 100) and whose
    heading (node 7) both contain markup-significant characters. *)
Definition markupPage : Page :=
  {| querySelectorAll := fun s =>
       if String.eqb s ".user-message" then [0]
       else if String.prefix "h1" s then [7] else [];
     elQuerySelector := fun n s =>
       if String.eqb s (textSelector Grok) then Some (100 + n) else None;
     textContent := fun n =>
       if n =? 100 then js "<script>alert(1)</script>"
       else if n =? 7 then js "Plan <b>B</b> & more" else [];
     href := fun _ => None;
     closestAnchor := fun _ => None;
     value := fun _ => None;
     classListContains := fun _ _ => false;
     location_href := js "https://example.test/c/42" |}.

(** The id an adversarial page gave its message element: it closes the
    attribute and opens another. *)
Definition quotedId : jsstring := js ("x" +:+ dq +:+ " onclick=" +:+ dq +:+ "alert(1)").

Definition markupWorld : World :=
  (hostOf markupPage {[ 0 := quotedId ]} [0; 7; 100], constructed Grok).

(** A host whose run-time selector lookup rejects every selector text. *)
Definition strictHost (pg : Page) : Host :=
  {| page := pg; ids := ∅; elements := [];
     querySelectorRuntime := fun _ => None;
     now := 0%Z; timers := []; nextHandle := 0;
     scrolledIntoView := []; styleTransition := ∅; styleBackgroundColor := ∅ |}.

(** Grok's scenario A after the first refresh, with the Questions panel open. *)
Definition questionsOpen : World :=
  (run [(10%Z, ButtonClick Questions)]
       (newChatNavigatorUI Grok (hostOf scenarioA ∅ [0; 1; 2]))).1.

(** ** Further notions *)

From Stdlib Require Import DecimalNat.

(** The selector families whose results a platform's [getQuestions]
    concatenates one after the other at the head of its candidate list
    (ChatGPT and DeepSeek make a single query, Claude queries its
    alternatives only when the first query finds nothing). *)
Definition userSelectors (pf : Platform) : list string :=
  match pf with
  | Perplexity =>
      [ attr "data-testid" "=" "user-query"; ".user-query"; ".query";
        attr "class" "*=" "query"; ".user-message"; attr "class" "*=" "user-input" ]
  | Gemini =>
      [ attr "data-test-id" "=" "user-message"; ".user-message";
        attr "class" "*=" "user"; attr "data-role" "=" "user";
        ".human-message"; ".prompt-input" ]
  | Copilot =>
      [ attr "data-author" "=" "user"; ".user-message"; attr "class" "*=" "user";
        ".human-message"; attr "data-testid" "=" "user-message"; ".msg-user";
        ".ac-textBlock .ac-textRun";
        ".cib-serp-main " +:+ attr "class" "*=" "user";
        ".b_sydConvCont " +:+ attr "data-author" "=" "user";
        ".cib-chat-turn" +:+ attr "data-author" "=" "user" ]
  | Meta =>
      [ attr "data-testid" "=" "user-message"; ".user-message";
        attr "class" "*=" "user"; attr "data-role" "=" "user";
        ".human-message"; ".message-user" ]
  | Grok =>
      [ attr "data-testid" "=" "user-message"; ".user-message";
        attr "class" "*=" "user"; ".message-user";
        attr "data-role" "=" "user"; ".human-message" ]
  | _ => []
  end.

(** Whether a candidate is accepted. *)
Definition isAccepted (pf : Platform) (pg : Page) (message : node) : bool :=
  match accepted pf pg message with Some _ => true | None => false end.

(** A Grok page on which one user message (node 0, 20 units) is found both by
    [.user-message] and by [[class*="user"]], as every element of class
    [user-message] is. *)
Definition overlappingSelectors : Page :=
  {| querySelectorAll := fun s =>
       if String.eqb s ".user-message" then [0]
       else if String.eqb s (attr "class" "*=" "user") then [0] else [];
     elQuerySelector := fun _ _ => None;
     textContent := fun n => if n =? 0 then textOfLength 20 else [];
     href := fun _ => None;
     closestAnchor := fun _ => None;
     value := fun _ => None;
     classListContains := fun _ _ => false;
     location_href := js "https://example.test/c/42" |}.

(** A Grok page and a ChatGPT page with one user message each (node 0,
    "hello there, world" between spaces and a line break) that has no inner
    text-bearing node. *)
Definition bareMessage (sel : string) : Page :=
  {| querySelectorAll := fun s => if String.eqb s sel then [0] else [];
     elQuerySelector := fun _ _ => None;
     textContent := fun n => if n =? 0 then js ("  hello there, world " +:+ nl) else [];
     href := fun _ => None;
     closestAnchor := fun _ => None;
     value := fun _ => None;
     classListContains := fun _ _ => false;
     location_href := js "https://example.test/c/42" |}.



(** Whether an event is the selection of a rendered row. *)
Definition selects (e : Event) : bool :=
  match e with RowClick _ => true | _ => false end.

(** How the controller's handle and the pending timers stand to each other
    along a run: the handle was given out by the host before, a pending
    timer that carries it is a refresh, and every pending refresh carries
    it. *)
Definition timersTidy (w : World) : Prop :=
  handlesFresh w.1 /\
  (forall k, updateTimeout w.2 = Some k ->
             k < nextHandle w.1 /\
             Forall (fun tm => handle tm = k -> isRefresh (task tm) = true) (timers w.1)) /\
  Forall (fun tm => isRefresh (task tm) = true -> updateTimeout w.2 = Some (handle tm))
         (timers w.1).

(** The highlight of [el] is over, or a timer that ends it is pending and
    due by [horizon]. *)
Definition resetPending (el : node) (horizon : Z) (w : World) : Prop :=
  styleBackgroundColor w.1 !! el = Some [] \/
  Exists (fun tm => task tm = Unhighlight el /\ (due tm <= horizon)%Z /\
                    Forall (fun x => handle x = handle tm -> task x = Unhighlight el)
                           (timers w.1))
         (timers w.1).

(** The panels show the rendering of the lists the controller holds. *)
Definition showsLists (ui : ChatNavigatorUI) : Prop :=
  questionsContent (container ui) = renderQuestions (questions ui) /\
  chatsContent (container ui) = renderChats (chats ui).

(** Two controller states with the same parser, lists and panel contents. *)
Definition sameContent (ui ui' : ChatNavigatorUI) : Prop :=
  parser ui' = parser ui /\ questions ui' = questions ui /\ chats ui' = chats ui /\
  questionsContent (container ui') = questionsContent (container ui) /\
  chatsContent (container ui') = chatsContent (container ui).

(** * Properties *)

#[local] Arguments js : simpl never.
#[local] Arguments matchesPrefixCI : simpl never.
#[local] Arguments trim : simpl never.
#[local] Arguments truncate : simpl never.
#[local] Arguments includes : simpl never.

Example scenarioA_grok_texts :
  length <$> (q_text <$> (getQuestions Grok scenarioA ∅).1) = [50; 103].
Proof. vm_compute. reflexivity. Qed.

Example scenarioA_grok_ids :
  q_id <$> (getQuestions Grok scenarioA ∅).1 = [js "grok-user-1"; js "grok-user-2"].
Proof. vm_compute. reflexivity. Qed.

Example scenarioA_chatgpt_texts :
  length <$> (q_text <$> (getQuestions ChatGPT scenarioA_chatgpt ∅).1) = [5; 50; 103].
Proof. vm_compute. reflexivity. Qed.

Example chatgpt_title_kept_whole :
  (fun c => (length (c_title c), c_id c, c_url c)) <$> getChats ChatGPT chatgptLongTitle
  = [(60, js "chat-abc123", Some (js "https://chatgpt.com/c/abc123"))].
Proof. vm_compute. reflexivity. Qed.

Example claude_title_cut :
  (fun c => (length (c_title c), c_id c)) <$> getChats Claude claudeLongTitle
  = [(53, js "claude-chat-abc123")].
Proof. vm_compute. reflexivity. Qed.

Example scenarioB_chatgpt :
  getChats ChatGPT scenarioB
  = [ {| c_id := js "current-chat"; c_title := js "Project Plan";
         c_url := Some (js "https://example.test/c/42") |} ].
Proof. vm_compute. reflexivity. Qed.

Example scenarioB_deepseek : getChats DeepSeek scenarioB = [].
Proof. vm_compute. reflexivity. Qed.

Example brand_chatgpt :
  c_title <$> getChats ChatGPT (brandHeading "ChatGPT") = [js "ChatGPT"].
Proof. vm_compute. reflexivity. Qed.

Example brand_gemini :
  (getChats Gemini (brandHeading "Gemini"), getChats Gemini (brandHeading "Gemini tips"))
  = ([], []).
Proof. vm_compute. reflexivity. Qed.

Example brand_claude :
  (getChats Claude (brandHeading "Claude"), c_title <$> getChats Claude (brandHeading "Claude tips"))
  = ([], [js "Claude tips"]).
Proof. vm_compute. reflexivity. Qed.

(** ** Strings *)

Lemma substring_from_start (cap : nat) (t : jsstring) : substring 0 cap t = take cap t.
Proof.
  unfold substring. rewrite Nat.min_0_l, Nat.max_0_l. simpl.
  rewrite Nat.sub_0_r. destruct (Nat.le_ge_cases cap (length t)) as [H|H].
  - by rewrite Nat.min_l.
  - rewrite Nat.min_r by done. by rewrite !take_ge.
Qed.

Lemma marker_length : length marker = 3.
Proof. reflexivity. Qed.

Lemma truncate_short (cap : nat) (T : jsstring) :
  length T <= cap -> truncate cap T = T.
Proof.
  intros H. unfold truncate. destruct (Nat.ltb_spec cap (length T)); [lia | done].
Qed.

Lemma truncate_long (cap : nat) (T : jsstring) :
  cap < length T -> truncate cap T = take cap T ++ marker.
Proof.
  intros H. unfold truncate. destruct (Nat.ltb_spec cap (length T)); [| lia].
  by rewrite substring_from_start.
Qed.

Lemma truncate_truncatedTo (cap : nat) (T : jsstring) : truncatedTo cap T (truncate cap T).
Proof.
  unfold truncatedTo. destruct (Nat.le_gt_cases (length T) cap) as [H|H].
  - rewrite truncate_short by done. split; [lia|]. split; [done | lia].
  - rewrite truncate_long by done. split; [| split; [lia |]].
    + rewrite length_app, length_take. lia.
    + intros _. exists (take cap T). split; [done|]. split.
      * rewrite length_take. lia.
      * apply prefix_take.
Qed.

Lemma truthy_nonempty (t : jsstring) : truthy t = true <-> t <> [].
Proof. destruct t; simpl; split; congruence. Qed.

(** ** The loops, as lists *)

Lemma forEachFrom_questionStep pf pg (l : list node) (i : nat) qs0 ids0 :
  forEachFrom (questionStep pf pg) l i (qs0, ids0)
  = (qs0 ++ (stampAll pf (acceptedFrom pf pg i l) ids0).1,
     (stampAll pf (acceptedFrom pf pg i l) ids0).2).
Proof.
  revert i qs0 ids0. induction l as [|message l IH]; intros i qs0 ids0; simpl.
  - by rewrite app_nil_r.
  - unfold questionStep at 2, acceptedFrom. simpl.
    unfold accepted, resolvedText.
    destruct (textElement pf pg message) as [el|]; simpl.
    + destruct (truthy (trim (textContent pg el))); simpl.
      * destruct (skipsText pf (trim (textContent pg el))); simpl.
        -- apply IH.
        -- destruct (stampId pf message i ids0) as [messageId ids1] eqn:Hs. simpl.
           rewrite IH. unfold acceptedFrom. by rewrite <- app_assoc.
      * apply IH.
    + apply IH.
Qed.

Lemma getQuestions_stampAll pf pg ids :
  getQuestions pf pg ids = stampAll pf (acceptedCandidates pf pg) ids.
Proof.
  unfold getQuestions, forEach. rewrite forEachFrom_questionStep. simpl.
  unfold acceptedCandidates. by destruct (stampAll _ _ _).
Qed.

Lemma forEachFrom_chatStep pf pg (l : list node) (i : nat) cs0 :
  forEachFrom (chatStep pf pg) l i cs0 = cs0 ++ omap (chatAt pf pg) (indexedFrom i l).
Proof.
  revert i cs0. induction l as [|item l IH]; intros i cs0; simpl.
  - by rewrite app_nil_r.
  - rewrite IH. unfold chatStep, chatAt, resolvedTitle. simpl.
    destruct (titleElement pf pg item) as [el|]; simpl; [|done].
    destruct (truthy (trim (textContent pg el))); simpl; [|done].
    destruct (skipsTitle pf (trim (textContent pg el))); simpl; [done|].
    by rewrite <- app_assoc.
Qed.

Lemma historyChats_chatAt pf pg :
  historyChats pf pg = omap (chatAt pf pg) (indexedFrom 0 (chatItems pf pg)).
Proof. unfold historyChats, forEach. by rewrite forEachFrom_chatStep. Qed.

Lemma elem_of_indexedFrom {A : Type} (l : list A) (i : nat) (c : nat * A) :
  c ∈ indexedFrom i l <-> i <= c.1 /\ l !! (c.1 - i) = Some c.2.
Proof.
  revert i. induction l as [|x l IH]; intros i; simpl.
  - split; [by intros ?%elem_of_nil | by intros [_ ?]].
  - rewrite elem_of_cons, IH. destruct c as [j y]; simpl. split.
    + intros [[= -> ->] | [Hle Hl]].
      * split; [lia|]. by rewrite Nat.sub_diag.
      * split; [lia|]. replace (j - i) with (S (j - S i)) by lia. done.
    + intros [Hle Hl]. destruct (decide (j = i)) as [->|Hne].
      * left. rewrite Nat.sub_diag in Hl. simpl in Hl. congruence.
      * right. split; [lia|]. replace (j - i) with (S (j - S i)) in Hl by lia. done.
Qed.

Lemma elem_of_acceptedFrom pf pg (i : nat) (l : list node) (c : nat * node * jsstring) :
  c ∈ acceptedFrom pf pg i l <->
  i <= c.1.1 /\ l !! (c.1.1 - i) = Some c.1.2 /\ accepted pf pg c.1.2 = Some c.2.
Proof.
  unfold acceptedFrom. rewrite list_elem_of_omap. split.
  - intros [[j m] [Hin Heq]]. simpl in Heq.
    apply elem_of_indexedFrom in Hin as [Hle Hl]. simpl in *.
    destruct (accepted pf pg m) as [T|] eqn:Hacc; simpl in Heq; [|done].
    injection Heq as <-. simpl. done.
  - intros (Hle & Hl & Hacc). exists (c.1.1, c.1.2). split.
    + apply elem_of_indexedFrom. done.
    + simpl. rewrite Hacc. simpl. by destruct c as [[? ?] ?].
Qed.

Lemma accepted_Some pf pg (message : node) (T : jsstring) :
  accepted pf pg message = Some T <->
  resolvedText pf pg message = Some T /\ T <> [] /\ skipsText pf T = false.
Proof.
  unfold accepted. destruct (resolvedText pf pg message) as [T'|].
  - destruct (truthy T') eqn:Ht; simpl.
    + apply truthy_nonempty in Ht. destruct (skipsText pf T') eqn:Hs; simpl.
      * split; [done|]. intros ([= ->] & _ & ?). congruence.
      * split; [by intros [= ->] | by intros ([= ->] & _)].
    + assert (T' = []) as -> by (by destruct T').
      split; [done|]. intros ([= <-] & ? & _). done.
  - split; [done | by intros [? _]].
Qed.

Lemma elem_of_stampAll pf (l : list (nat * node * jsstring)) ids (q : Question) :
  q ∈ (stampAll pf l ids).1 -> exists c, c ∈ l /\ q_text q = truncate 100 c.2.
Proof.
  revert ids. induction l as [|c l IH]; intros ids; simpl.
  - by intros ?%elem_of_nil.
  - intros [->|Hin]%elem_of_cons.
    + exists c. split; [left|done].
    + destruct (IH _ Hin) as (c' & Hc' & Heq). exists c'. split; [by right | done].
Qed.

Lemma getQuestions_source pf pg ids (q : Question) :
  q ∈ (getQuestions pf pg ids).1 ->
  exists message T,
    message ∈ userMessages pf pg /\ accepted pf pg message = Some T /\
    q_text q = truncate 100 T.
Proof.
  rewrite getQuestions_stampAll. intros (c & Hc & Heq)%elem_of_stampAll.
  apply elem_of_acceptedFrom in Hc as (_ & Hl & Hacc).
  exists c.1.2, c.2. split; [|done]. by eapply list_elem_of_lookup_2.
Qed.

Lemma getChats_history pf pg :
  historyChats pf pg <> [] -> getChats pf pg = historyChats pf pg.
Proof.
  intros H. unfold getChats. by destruct (historyChats pf pg).
Qed.

Lemma getChats_fallback pf pg :
  historyChats pf pg = [] -> getChats pf pg = currentChat pf pg.
Proof. intros H. unfold getChats. by rewrite H. Qed.

Lemma historyChats_source pf pg (c : Chat) :
  c ∈ historyChats pf pg ->
  exists index item title,
    chatItems pf pg !! index = Some item /\
    resolvedTitle pf pg item = Some title /\ title <> [] /\ skipsTitle pf title = false /\
    c = {| c_id := chatId pf index (itemHref pf pg item);
           c_title := storedTitle pf title;
           c_url := itemHref pf pg item |}.
Proof.
  rewrite historyChats_chatAt, list_elem_of_omap.
  intros ([index item] & [_ Hl]%elem_of_indexedFrom & Hc). simpl in Hl.
  rewrite Nat.sub_0_r in Hl. unfold chatAt in Hc. simpl in Hc.
  destruct (resolvedTitle pf pg item) as [title|] eqn:Hr; [|done].
  destruct (truthy title) eqn:Ht; simpl in Hc; [|done].
  destruct (skipsTitle pf title) eqn:Hs; simpl in Hc; [done|].
  injection Hc as <-. exists index, item, title.
  apply truthy_nonempty in Ht. done.
Qed.

Lemma claudeCurrentChat_source pg (sels : list string) (c : Chat) :
  c ∈ claudeCurrentChat pg sels ->
  exists selector el,
    selector ∈ sels /\ querySelector pg selector = Some el /\
    trim (textContent pg el) <> [] /\
    trim (textContent pg el) <> js "Claude" /\
    matchesPrefixCI ["New"; "Untitled"] "" (trim (textContent pg el)) = false /\
    c = {| c_id := js "claude-current-chat";
           c_title := truncate 50 (trim (textContent pg el));
           c_url := Some (location_href pg) |}.
Proof.
  induction sels as [|selector sels IH]; simpl; intros Hc.
  - by apply elem_of_nil in Hc.
  - assert (c ∈ claudeCurrentChat pg sels \/
            exists el, querySelector pg selector = Some el /\
              trim (textContent pg el) <> [] /\ trim (textContent pg el) <> js "Claude" /\
              matchesPrefixCI ["New"; "Untitled"] "" (trim (textContent pg el)) = false /\
              c = {| c_id := js "claude-current-chat";
                     c_title := truncate 50 (trim (textContent pg el));
                     c_url := Some (location_href pg) |}) as [Hrest | (el & Hhere)].
    { destruct (querySelector pg selector) as [el|] eqn:Hq; [|by left].
      destruct (truthy (trim (textContent pg el))) eqn:Ht; simpl in Hc; [|by left].
      destruct (bool_decide (trim (textContent pg el) = js "Claude")) eqn:Hb; simpl in Hc;
        [by left|].
      destruct (matchesPrefixCI ["New"; "Untitled"] "" (trim (textContent pg el))) eqn:Hm;
        simpl in Hc; [by left|].
      right. exists el. apply list_elem_of_singleton in Hc.
      apply truthy_nonempty in Ht. apply bool_decide_eq_false in Hb. done. }
    + destruct (IH Hrest) as (s & el & Hs & H). exists s, el. split; [by right | done].
    + exists selector, el. split; [left | done].
Qed.

(** ** C1: truncation *)

(** C1 (as amended).  Every Question returned by [getQuestions], on every
    platform, stores the text T of its candidate under the truncation law
    with cap 100: T itself when T has at most 100 units, otherwise the first
    100 units of T followed by the three-unit marker, so at most 103 units in
    all.  The same law with cap 50 holds for the titles of the Chats returned
    from history entries on Perplexity, Claude, Gemini, Copilot, Meta and
    Grok, and for every Chat returned on Claude. *)
Theorem truncation_law pf pg ids :
  (forall q, q ∈ (getQuestions pf pg ids).1 ->
     exists message T,
       message ∈ userMessages pf pg /\ resolvedText pf pg message = Some T /\
       truncatedTo 100 T (q_text q)) /\
  (truncatesTitles pf = true -> historyChats pf pg <> [] ->
   forall c, c ∈ getChats pf pg ->
     exists item T,
       item ∈ chatItems pf pg /\ resolvedTitle pf pg item = Some T /\
       truncatedTo 50 T (c_title c)) /\
  (forall c, c ∈ getChats Claude pg ->
     exists el, truncatedTo 50 (trim (textContent pg el)) (c_title c)).
Proof.
  split; [| split].
  - intros q (message & T & Hm & Hacc & Heq)%getQuestions_source.
    apply accepted_Some in Hacc as (Hres & _ & _).
    exists message, T. rewrite Heq. split; [done|]. split; [done|].
    apply truncate_truncatedTo.
  - intros Hpf Hne c Hc. rewrite getChats_history in Hc by done.
    apply historyChats_source in Hc as (index & item & title & Hl & Hres & _ & _ & ->).
    exists item, title. split; [by eapply list_elem_of_lookup_2|]. split; [done|].
    simpl. destruct pf; try discriminate Hpf; apply truncate_truncatedTo.
  - intros c Hc. destruct (decide (historyChats Claude pg = [])) as [He|Hne].
    + rewrite getChats_fallback in Hc by done.
      apply claudeCurrentChat_source in Hc as (s & el & _ & _ & _ & _ & _ & ->).
      exists el. apply truncate_truncatedTo.
    + rewrite getChats_history in Hc by done.
      apply historyChats_source in Hc as (index & item & title & Hl & Hres & _ & _ & ->).
      unfold resolvedTitle in Hres. destruct (titleElement Claude pg item) as [el|]; [|done].
      injection Hres as <-. exists el. apply truncate_truncatedTo.
Qed.

(** The law as first stated, with the marker counted inside the cap, fails: a
    ChatGPT message of 101 units is stored in 103 units, and a ChatGPT
    history title of 60 units is stored whole. *)
Lemma truncation_cap_exceeded :
  ~ Forall (fun q => length (q_text q) <= 100) (getQuestions ChatGPT chatgptLongMessage ∅).1 /\
  ~ Forall (fun c => length (c_title c) <= 50) (getChats ChatGPT chatgptLongTitle).
Proof.
  split; intros H; apply Forall_inv in H; vm_compute in H; lia.
Qed.

Lemma truncation_law_witness :
  (exists message T,
     message ∈ userMessages ChatGPT chatgptLongMessage /\
     resolvedText ChatGPT chatgptLongMessage message = Some T /\
     truncatedTo 100 T (textOfLength 100 ++ marker)) /\
  (exists item T,
     item ∈ chatItems Claude claudeLongTitle /\
     resolvedTitle Claude claudeLongTitle item = Some T /\
     truncatedTo 50 T (textOfLength 50 ++ marker)) /\
  (exists el, truncatedTo 50 (trim (textContent claudeLongTitle el)) (textOfLength 50 ++ marker)).
Proof.
  split; [| split].
  - apply (proj1 (truncation_law ChatGPT chatgptLongMessage ∅)
             {| q_id := js "chatgpt-user-0"; q_text := textOfLength 100 ++ marker |}).
    vm_compute. left.
  - apply (proj1 (proj2 (truncation_law Claude claudeLongTitle ∅)) eq_refl
             ltac:(vm_compute; discriminate)
             {| c_id := js "claude-chat-abc123"; c_title := textOfLength 50 ++ marker;
                c_url := Some (js "https://claude.ai/chat/abc123?x=1") |}).
    vm_compute. left.
  - apply (proj2 (proj2 (truncation_law Claude claudeLongTitle ∅))
             {| c_id := js "claude-chat-abc123"; c_title := textOfLength 50 ++ marker;
                c_url := Some (js "https://claude.ai/chat/abc123?x=1") |}).
    vm_compute. left.
Defined.

(** ** C4: minimum signal *)

Lemma skipsText_keepsText pf (T : jsstring) :
  truthy T && negb (skipsText pf T) = keepsText pf T.
Proof.
  unfold keepsText. destruct (truthy T); [|done].
  destruct pf; unfold skipsText, minimumSignalLength, assistantSpeech;
    rewrite ?Nat.ltb_antisym; try reflexivity;
    destruct (10 <=? length T); try reflexivity;
    match goal with
    | |- context [matchesPrefixCI ?a ?b ?c] => destruct (matchesPrefixCI a b c)
    end; reflexivity.
Qed.

Lemma acceptedFrom_texts pf pg (i : nat) (l : list node) :
  (fun c => c.2) <$> acceptedFrom pf pg i l
  = List.filter (keepsText pf) (omap (resolvedText pf pg) l).
Proof.
  revert i. induction l as [|message l IH]; intros i; [done|].
  unfold acceptedFrom in *. simpl. unfold accepted at 1.
  destruct (resolvedText pf pg message) as [T|]; simpl; [|apply IH].
  rewrite skipsText_keepsText. destruct (keepsText pf T); simpl; [f_equal|]; apply IH.
Qed.

Lemma stampAll_texts pf (l : list (nat * node * jsstring)) ids :
  q_text <$> (stampAll pf l ids).1 = (fun c => truncate 100 c.2) <$> l.
Proof.
  revert ids. induction l as [|c l IH]; intros ids; simpl; [done|]. by rewrite IH.
Qed.

(** C4 (as amended).  The previews [getQuestions] returns are, in order, the
    previews of exactly those candidates whose resolved, trimmed text is not
    empty, has at least the platform's minimum signal length and is not
    assistant speech: every other candidate is rejected, every such
    candidate is kept.  The minimum is 10 units on Perplexity, Claude,
    Gemini, Copilot, Meta and Grok; ChatGPT and DeepSeek have no minimum and
    reject only a candidate without text. *)
Theorem minimum_signal_rejection pf pg ids :
  q_text <$> (getQuestions pf pg ids).1
  = truncate 100 <$>
      List.filter
        (fun T => truthy T
                  && (match pf with ChatGPT | DeepSeek => 0 | _ => 10 end <=? length T)
                  && negb (assistantSpeech pf T))
        (omap (resolvedText pf pg) (userMessages pf pg)).
Proof.
  rewrite getQuestions_stampAll, stampAll_texts. unfold acceptedCandidates.
  transitivity (truncate 100 <$> ((fun c => c.2) <$> acceptedFrom pf pg 0 (userMessages pf pg))).
  - by rewrite <- list_fmap_compose.
  - rewrite acceptedFrom_texts. reflexivity.
Qed.

(** On ChatGPT the 5-unit message of scenario A is returned, so rejection
    below 10 units does not hold on every platform. *)
Lemma short_message_kept :
  ~ Forall (fun q => 10 <= length (q_text q)) (getQuestions ChatGPT scenarioA_chatgpt ∅).1.
Proof.
  intros H. apply Forall_inv in H. vm_compute in H. lia.
Qed.

(** ** The current-conversation fallback *)

Lemma headingChat_spec pg (sel : string) (rejected : jsstring -> bool) (id : string) :
  (exists el,
     querySelector pg sel = Some el /\ trim (textContent pg el) <> [] /\
     rejected (textContent pg el) = false /\
     headingChat pg sel rejected id
     = [ {| c_id := js id; c_title := trim (textContent pg el);
            c_url := Some (location_href pg) |} ])
  \/ (headingChat pg sel rejected id = [] /\
      forall el, querySelector pg sel = Some el ->
                 trim (textContent pg el) = [] \/ rejected (textContent pg el) = true).
Proof.
  unfold headingChat. destruct (querySelector pg sel) as [el|]; [|by right].
  destruct (truthy (trim (textContent pg el))) eqn:Ht; simpl.
  - apply truthy_nonempty in Ht. destruct (rejected (textContent pg el)) eqn:Hr; simpl.
    + right. split; [done|]. intros ? [= <-]. by right.
    + left. by exists el.
  - right. split; [done|]. intros ? [= <-]. left. by destruct (trim (textContent pg el)).
Qed.

Lemma claudeCurrentChat_length pg (sels : list string) : length (claudeCurrentChat pg sels) <= 1.
Proof.
  induction sels as [|selector sels IH]; simpl; [lia|].
  destruct (querySelector pg selector) as [el|]; [|done].
  destruct (truthy (trim (textContent pg el))); [|done].
  destruct (_ && _); [simpl; lia | done].
Qed.

Lemma currentChat_length pf pg : length (currentChat pf pg) <= 1.
Proof.
  destruct pf; unfold currentChat; try (simpl; lia);
    try (match goal with
         | |- context [headingChat ?pg ?s ?r ?i] =>
             destruct (headingChat_spec pg s r i) as [(el & _ & _ & _ & ->) | [-> _]]
         end; simpl; lia).
  - destruct (querySelector pg _) as [el|]; [|simpl; lia].
    destruct (value pg el) as [v|]; [|simpl; lia].
    destruct (truthy v); simpl; lia.
  - apply claudeCurrentChat_length.
Qed.

Lemma elem_of_headingChat pg (sel : string) (rejected : jsstring -> bool) (id : string) c :
  c ∈ headingChat pg sel rejected id ->
  exists el,
    querySelector pg sel = Some el /\ trim (textContent pg el) <> [] /\
    rejected (textContent pg el) = false /\
    c = {| c_id := js id; c_title := trim (textContent pg el);
           c_url := Some (location_href pg) |}.
Proof.
  destruct (headingChat_spec pg sel rejected id) as [(el & Hq & Ht & Hr & ->) | [-> _]].
  - intros ->%list_elem_of_singleton. by exists el.
  - by intros ?%elem_of_nil.
Qed.

Ltac heading_case :=
  let el := fresh "el" in
  let Hq := fresh "Hq" in
  let Ht := fresh "Ht" in
  let Hr := fresh "Hr" in
  intros (el & Hq & Ht & Hr & ->)%elem_of_headingChat; simpl;
  split; [done|]; split; [done|]; split; [done|];
  eexists _, el; split; [left|]; split; [exact Hq|]; split; [done|].

Lemma currentChat_source pf pg (c : Chat) :
  c ∈ currentChat pf pg ->
  c_id c = js (currentChatId pf) /\ c_title c <> [] /\ c_url c = Some (location_href pg) /\
  exists selector el,
    selector ∈ currentChatSelectors pf /\ querySelector pg selector = Some el /\
    synthesizedFrom pf pg el (c_title c).
Proof.
  destruct pf; unfold currentChat, currentChatSelectors, currentChatId, synthesizedFrom, brandNames.
  - (* ChatGPT *) heading_case. constructor.
  - (* Perplexity *)
    destruct (querySelector pg _) as [el|] eqn:Hq; [|by intros ?%elem_of_nil].
    destruct (value pg el) as [v|] eqn:Hv; [|by intros ?%elem_of_nil].
    destruct (truthy v) eqn:Ht; [|by intros ?%elem_of_nil].
    intros ->%list_elem_of_singleton. simpl. apply truthy_nonempty in Ht.
    split; [done|]. split; [done|]. split; [done|].
    eexists _, el. split; [left|]. split; [exact Hq | done].
  - (* Claude *)
    intros (s & el & Hs & Hq & Ht & Hb & Hm & ->)%claudeCurrentChat_source. simpl.
    split; [done|]. split; [|split; [done|]].
    + rewrite <- truthy_nonempty in Ht |- *. unfold truncate.
      destruct (50 <? length (trim (textContent pg el))) eqn:Hlen; [|done].
      rewrite substring_from_start. apply Nat.ltb_lt in Hlen.
      destruct (trim (textContent pg el)); [simpl in Hlen; lia | done].
    + exists s, el. done.
  - (* Gemini *) heading_case. constructor; [done | constructor].
  - (* DeepSeek *) by intros ?%elem_of_nil.
  - (* Copilot *)
    heading_case. apply orb_false_elim in Hr as [H1 H2].
    constructor; [done|]. constructor; [done | constructor].
  - (* Meta *) heading_case. constructor; [done | constructor].
  - (* Grok *) heading_case. constructor.
Qed.

(** ** C7: the url of a synthesized entry *)

(** C7 (as amended).  A Chat synthesized on the zero-history path always
    carries a url, the address of the current page ([window.location.href]);
    a Chat extracted from a history entry carries what the entry offers as
    its navigation target, which is absent when the entry offers none. *)
Theorem synthesized_chat_url pf pg :
  (historyChats pf pg = [] ->
   forall c, c ∈ getChats pf pg -> c_url c = Some (location_href pg)) /\
  (historyChats pf pg <> [] ->
   forall c, c ∈ getChats pf pg ->
     exists item, item ∈ chatItems pf pg /\ c_url c = itemHref pf pg item).
Proof.
  split.
  - intros He c Hc. rewrite getChats_fallback in Hc by done.
    by apply currentChat_source in Hc as (_ & _ & ? & _).
  - intros Hne c Hc. rewrite getChats_history in Hc by done.
    apply historyChats_source in Hc as (index & item & title & Hl & _ & _ & _ & ->).
    exists item. split; [by eapply list_elem_of_lookup_2 | done].
Qed.

(** In scenario B the synthesized ChatGPT entry has a url. *)
Lemma synthesized_chat_has_url :
  historyChats ChatGPT scenarioB = [] /\
  ~ Forall (fun c => c_url c = None) (getChats ChatGPT scenarioB).
Proof.
  split; [reflexivity|]. intros H. apply Forall_inv in H. vm_compute in H. discriminate.
Qed.

Lemma synthesized_chat_url_witness :
  Some (js "https://example.test/c/42") = Some (location_href scenarioB) /\
  exists item, item ∈ chatItems Claude claudeLongTitle /\
               Some (js "https://claude.ai/chat/abc123?x=1") = itemHref Claude claudeLongTitle item.
Proof.
  split.
  - apply (proj1 (synthesized_chat_url ChatGPT scenarioB) eq_refl
             {| c_id := js "current-chat"; c_title := js "Project Plan";
                c_url := Some (js "https://example.test/c/42") |}).
    vm_compute. left.
  - apply (proj2 (synthesized_chat_url Claude claudeLongTitle)
             ltac:(vm_compute; discriminate)
             {| c_id := js "claude-chat-abc123"; c_title := textOfLength 50 ++ marker;
                c_url := Some (js "https://claude.ai/chat/abc123?x=1") |}).
    vm_compute. left.
Defined.

(** ** C6: the fallback policy *)





(** ** C5: id assignment *)

Example deepseek_overwrites :
  (q_id <$> (getQuestions DeepSeek deepseekStamped deepseekStampedIds).1,
   elementId (getQuestions DeepSeek deepseekStamped deepseekStampedIds).2 0)
  = ([js "deepseek-user-0"], js "deepseek-user-0").
Proof. vm_compute. reflexivity. Qed.

Example grok_reuses :
  (q_id <$> (getQuestions Grok scenarioA scenarioA_ids).1,
   elementId (getQuestions Grok scenarioA scenarioA_ids).2 1,
   elementId (getQuestions Grok scenarioA scenarioA_ids).2 2)
  = ([js "m-1"; js "grok-user-2"], js "m-1", js "grok-user-2").
Proof. vm_compute. reflexivity. Qed.

Lemma syntheticId_nonempty pf (index : nat) : syntheticId pf index <> [].
Proof. destruct pf; discriminate. Qed.

Lemma elementId_insert (ids : gmap node jsstring) (m n : node) (v : jsstring) :
  elementId (setElementId ids m v) n = if decide (m = n) then v else elementId ids n.
Proof.
  unfold elementId, setElementId. rewrite lookup_insert. by destruct (decide (m = n)).
Qed.

Section Reusing.
Context (pf : Platform) (Hreuse : reusesId pf = true).

Lemma stampId_reusing (m : node) (i : nat) (ids : gmap node jsstring) :
  stampId pf m i ids
  = (js_or (elementId ids m) (syntheticId pf i),
     if truthy (elementId ids m) then ids
     else setElementId ids m (syntheticId pf i)).
Proof.
  destruct pf; try discriminate Hreuse; unfold stampId, js_or;
    by destruct (truthy (elementId ids m)).
Qed.

Lemma stampId_id_nonempty m i ids : (stampId pf m i ids).1 <> [].
Proof.
  rewrite stampId_reusing. simpl. unfold js_or.
  destruct (truthy (elementId ids m)) eqn:Ht.
  - by apply truthy_nonempty.
  - apply syntheticId_nonempty.
Qed.

Lemma stampId_stamped m i ids :
  elementId (stampId pf m i ids).2 m = (stampId pf m i ids).1.
Proof.
  rewrite stampId_reusing. simpl. unfold js_or.
  destruct (truthy (elementId ids m)) eqn:Ht; [done|].
  rewrite elementId_insert. by destruct (decide (m = m)).
Qed.

Lemma stampId_keeps m i ids (n : node) :
  elementId ids n <> [] -> elementId (stampId pf m i ids).2 n = elementId ids n.
Proof.
  intros Hn. rewrite stampId_reusing. simpl.
  destruct (truthy (elementId ids m)) eqn:Ht; [done|].
  rewrite elementId_insert. destruct (decide (m = n)) as [->|]; [|done].
  apply truthy_nonempty in Hn. congruence.
Qed.




Lemma stampAll_keeps (l : list (nat * node * jsstring)) ids (n : node) :
  elementId ids n <> [] -> elementId (stampAll pf l ids).2 n = elementId ids n.
Proof.
  revert ids. induction l as [|c l IH]; intros ids Hn; simpl; [done|].
  rewrite IH; [by apply stampId_keeps|]. by rewrite stampId_keeps.
Qed.



Lemma stampAll_final (l : list (nat * node * jsstring)) ids :
  (stampAll pf l ids).1
  = (fun c => {| q_id := elementId (stampAll pf l ids).2 c.1.2;
                 q_text := truncate 100 c.2 |}) <$> l /\
  Forall (fun c => elementId (stampAll pf l ids).2 c.1.2 <> []) l.
Proof.
  revert ids. induction l as [|c l IH]; intros ids; simpl; [done|].
  destruct (IH (stampId pf c.1.2 c.1.1 ids).2) as [IH1 IH2].
  assert (elementId (stampAll pf l (stampId pf c.1.2 c.1.1 ids).2).2 c.1.2
          = (stampId pf c.1.2 c.1.1 ids).1) as Hhead.
  { rewrite stampAll_keeps; rewrite stampId_stamped; [done|]. apply stampId_id_nonempty. }
  split.
  - rewrite Hhead. f_equal. exact IH1.
  - constructor; [|done]. rewrite Hhead. apply stampId_id_nonempty.
Qed.

End Reusing.

Lemma stampAll_deepseek (l : list (nat * node * jsstring)) ids :
  (stampAll DeepSeek l ids).1
  = (fun c => {| q_id := syntheticId DeepSeek c.1.1; q_text := truncate 100 c.2 |}) <$> l.
Proof.
  revert ids. induction l as [|c l IH]; intros ids; simpl; [done|]. by rewrite IH.
Qed.

Lemma stampAll_length pf (l : list (nat * node * jsstring)) ids :
  length (stampAll pf l ids).1 = length l.
Proof.
  revert ids. induction l as [|c l IH]; intros ids; simpl; [done|]. by rewrite IH.
Qed.

Lemma acceptedCandidates_lookup pf pg (k : nat) c :
  acceptedCandidates pf pg !! k = Some c ->
  userMessages pf pg !! c.1.1 = Some c.1.2 /\ accepted pf pg c.1.2 = Some c.2.
Proof.
  intros Hk%list_elem_of_lookup_2. apply elem_of_acceptedFrom in Hk as (_ & Hl & Hacc).
  by rewrite Nat.sub_0_r in Hl.
Qed.





(** ** Rendering *)

Example escapes_script :
  escapeHtml (js "<script>alert(1)</script> & more")
  = js "&lt;script&gt;alert(1)&lt;/script&gt; &amp; more".
Proof. vm_compute. reflexivity. Qed.

Lemma escapeHtml_escapeString (text : jsstring) : escapeHtml text = escapeString text.
Proof.
  unfold escapeHtml, setTextContent, innerHTML. destruct text as [|c r]; [done|].
  cbn [truthy fmap list_fmap concat]. apply app_nil_r.
Qed.

Lemma escapeString_cons (c : N) (r : jsstring) :
  escapeString (c :: r) = escapeUnit c ++ escapeString r.
Proof. reflexivity. Qed.

Lemma escapeUnit_cases (c : N) :
  (c = 38%N /\ escapeUnit c = [38; 97; 109; 112; 59]%N) \/
  (c = 160%N /\ escapeUnit c = [38; 110; 98; 115; 112; 59]%N) \/
  (c = 60%N /\ escapeUnit c = [38; 108; 116; 59]%N) \/
  (c = 62%N /\ escapeUnit c = [38; 103; 116; 59]%N) \/
  (c <> 38%N /\ c <> 60%N /\ c <> 62%N /\ escapeUnit c = [c]).
Proof.
  unfold escapeUnit.
  destruct (N.eqb_spec c 38) as [->|H1]; [by left|].
  destruct (N.eqb_spec c 160) as [->|H2]; [right; by left|].
  destruct (N.eqb_spec c 60) as [->|H3]; [right; right; by left|].
  destruct (N.eqb_spec c 62) as [->|H4]; [right; right; right; by left|].
  right; right; right; right; done.
Qed.


Lemma readCharacterData_escapeString (text : jsstring) (fuel : nat) :
  length (escapeString text) < fuel ->
  readCharacterData fuel (escapeString text) = Some text.
Proof.
  revert fuel. induction text as [|c r IH]; intros fuel Hfuel.
  - destruct fuel; [lia | done].
  - rewrite escapeString_cons in *. rewrite length_app in Hfuel.
    destruct fuel as [|fuel]; [lia|].
    destruct (escapeUnit_cases c) as [[-> He] | [[-> He] | [[-> He] | [[-> He] | (H1 & H2 & H3 & He)]]]];
      rewrite He in *; simpl in Hfuel; cbn -[readCharacterData escapeString].
    + change (readCharacterData (S fuel) (38%N :: 97%N :: 109%N :: 112%N :: 59%N :: escapeString r))
        with (cons 38%N <$> readCharacterData fuel (escapeString r)).
      rewrite IH by lia. done.
    + change (readCharacterData (S fuel)
                (38%N :: 110%N :: 98%N :: 115%N :: 112%N :: 59%N :: escapeString r))
        with (cons 160%N <$> readCharacterData fuel (escapeString r)).
      rewrite IH by lia. done.
    + change (readCharacterData (S fuel) (38%N :: 108%N :: 116%N :: 59%N :: escapeString r))
        with (cons 60%N <$> readCharacterData fuel (escapeString r)).
      rewrite IH by lia. done.
    + change (readCharacterData (S fuel) (38%N :: 103%N :: 116%N :: 59%N :: escapeString r))
        with (cons 62%N <$> readCharacterData fuel (escapeString r)).
      rewrite IH by lia. done.
    + change (readCharacterData (S fuel) (c :: escapeString r))
        with (if (c =? 60)%N then None
              else if (c =? 38)%N then
                     if startsWith (js "amp;") (escapeString r)
                     then cons 38%N <$> readCharacterData fuel (drop 4 (escapeString r))
                     else if startsWith (js "nbsp;") (escapeString r)
                     then cons 160%N <$> readCharacterData fuel (drop 5 (escapeString r))
                     else if startsWith (js "lt;") (escapeString r)
                     then cons 60%N <$> readCharacterData fuel (drop 3 (escapeString r))
                     else if startsWith (js "gt;") (escapeString r)
                     then cons 62%N <$> readCharacterData fuel (drop 3 (escapeString r))
                     else None
              else cons c <$> readCharacterData fuel (escapeString r)).
      destruct (N.eqb_spec c 60); [done|]. destruct (N.eqb_spec c 38); [done|].
      rewrite IH by lia. done.
Qed.

Lemma asCharacterData_escapeHtml (text : jsstring) :
  asCharacterData (escapeHtml text) = Some text.
Proof.
  unfold asCharacterData. rewrite escapeHtml_escapeString.
  apply readCharacterData_escapeString. lia.
Qed.

Lemma concat_fmap_split {A : Type} (f : A -> jsstring) (l : list A) (x : A) :
  x ∈ l -> exists before after, concat (f <$> l) = before ++ f x ++ after.
Proof.
  intros (l1 & l2 & ->)%list_elem_of_split.
  exists (concat (f <$> l1)), (concat (f <$> l2)).
  by rewrite fmap_app, concat_app.
Qed.

Lemma renderQuestions_row (questions : list Question) (q : Question) :
  q ∈ questions ->
  exists before after,
    renderQuestions questions
    = before ++ navItem (q_id q) (escapeHtml (q_text q)) ++ after.
Proof.
  intros Hq. unfold renderQuestions.
  destruct questions as [|q0 qs]; [by apply elem_of_nil in Hq|].
  change (length (q0 :: qs) =? 0) with false. cbv iota.
  by apply (concat_fmap_split (fun question => navItem (q_id question) (escapeHtml (q_text question)))).
Qed.

Lemma renderChats_row (chats : list Chat) (c : Chat) :
  c ∈ chats ->
  exists before after,
    renderChats chats = before ++ navItem (c_id c) (escapeHtml (c_title c)) ++ after.
Proof.
  intros Hc. unfold renderChats.
  destruct chats as [|c0 cs]; [by apply elem_of_nil in Hc|].
  change (length (c0 :: cs) =? 0) with false. cbv iota.
  by apply (concat_fmap_split (fun chat => navItem (c_id chat) (escapeHtml (c_title chat)))).
Qed.

Lemma updateContent_lists (w : World) :
  questions (updateContent w).2 = (getQuestions (parser w.2) (page w.1) (ids w.1)).1 /\
  chats (updateContent w).2 = getChats (parser w.2) (page w.1) /\
  questionsContent (container (updateContent w).2)
  = renderQuestions (questions (updateContent w).2) /\
  chatsContent (container (updateContent w).2) = renderChats (chats (updateContent w).2).
Proof.
  destruct w as [h ui]. unfold updateContent. simpl.
  by destruct (getQuestions (parser ui) (page h) (ids h)).
Qed.

(** ** C2: escaping *)



(** ** C10: ids in rendered rows *)

Lemma rowMiddle_quote : exists rest, rowMiddle = 34%N :: rest.
Proof. eexists. vm_compute. reflexivity. Qed.

Lemma readAttributeValue_no_quote (markup value : jsstring) :
  readAttributeValue markup = Some value -> 34%N ∉ value.
Proof.
  revert value. induction markup as [|c r IH]; intros value; simpl; [done|].
  destruct (N.eqb_spec c 34); [intros [= <-]; by intros ?%elem_of_nil|].
  destruct (N.eqb_spec c 38); [done|].
  destruct (readAttributeValue r) as [v|]; simpl; [|done].
  intros [= <-]. intros [?|?]%elem_of_cons; [done|]. by eapply IH.
Qed.

Lemma readAttributeValue_plain (id rest : jsstring) :
  Forall (fun c => c <> 34%N /\ c <> 38%N) id ->
  readAttributeValue (id ++ 34%N :: rest) = Some id.
Proof.
  induction 1 as [|c id [H1 H2] _ IH]; simpl; [done|].
  destruct (N.eqb_spec c 34); [done|]. destruct (N.eqb_spec c 38); [done|].
  by rewrite IH.
Qed.

(** C10.  After a content refresh, every row carries its item's id between
    the quotes of [data-element-id] exactly as the parser returned it; only
    the text goes through [escapeHtml].  So an id reads back from the markup
    as itself when it has no double quote and no ampersand, and an id that
    contains a double quote never does: the quote ends the attribute value. *)
Theorem ids_bypass_escaping (w : World) :
  (forall q, q ∈ (getQuestions (parser w.2) (page w.1) (ids w.1)).1 ->
     exists before after,
       questionsContent (container (updateContent w).2)
       = before ++ rowOpen ++ q_id q ++ rowMiddle ++ escapeHtml (q_text q)
         ++ rowClose ++ after) /\
  (forall c, c ∈ getChats (parser w.2) (page w.1) ->
     exists before after,
       chatsContent (container (updateContent w).2)
       = before ++ rowOpen ++ c_id c ++ rowMiddle ++ escapeHtml (c_title c)
         ++ rowClose ++ after) /\
  (forall id rest : jsstring,
     Forall (fun c => c <> 34%N /\ c <> 38%N) id ->
     readAttributeValue (id ++ rowMiddle ++ rest) = Some id) /\
  (forall id rest : jsstring,
     34%N ∈ id -> readAttributeValue (id ++ rowMiddle ++ rest) <> Some id).
Proof.
  destruct (updateContent_lists w) as (Hq & Hc & Hqc & Hcc).
  split; [| split; [| split]].
  - intros q Hin. rewrite Hqc, Hq.
    destruct (renderQuestions_row _ _ Hin) as (before & after & ->).
    exists before, after. unfold navItem. by rewrite <- !app_assoc.
  - intros c Hin. rewrite Hcc, Hc.
    destruct (renderChats_row _ _ Hin) as (before & after & ->).
    exists before, after. unfold navItem. by rewrite <- !app_assoc.
  - intros id rest Hid. destruct rowMiddle_quote as [r ->]. simpl.
    by apply readAttributeValue_plain.
  - intros id rest Hin Hread. by apply readAttributeValue_no_quote in Hread.
Qed.

Lemma ids_bypass_escaping_witness :
  (exists before after,
     questionsContent (container (updateContent markupWorld).2)
     = before ++ rowOpen ++ quotedId ++ rowMiddle
       ++ js "&lt;script&gt;alert(1)&lt;/script&gt;" ++ rowClose ++ after) /\
  (exists before after,
     chatsContent (container (updateContent markupWorld).2)
     = before ++ rowOpen ++ js "grok-current-chat" ++ rowMiddle
       ++ js "Plan &lt;b&gt;B&lt;/b&gt; &amp; more" ++ rowClose ++ after) /\
  readAttributeValue (js "grok-user-0" ++ rowMiddle ++ rowClose) = Some (js "grok-user-0") /\
  readAttributeValue (quotedId ++ rowMiddle ++ rowClose) <> Some quotedId.
Proof.
  split; [| split; [| split]].
  - apply (proj1 (ids_bypass_escaping markupWorld)
             {| q_id := quotedId; q_text := js "<script>alert(1)</script>" |}).
    vm_compute. left.
  - apply (proj1 (proj2 (ids_bypass_escaping markupWorld))
             {| c_id := js "grok-current-chat"; c_title := js "Plan <b>B</b> & more";
                c_url := Some (js "https://example.test/c/42") |}).
    vm_compute. left.
  - apply (proj1 (proj2 (proj2 (ids_bypass_escaping markupWorld)))).
    vm_compute. repeat (constructor; [split; discriminate|]). constructor.
  - apply (proj2 (proj2 (proj2 (ids_bypass_escaping markupWorld)))).
    vm_compute. right. left.
Defined.

Example quoted_id_read_back :
  readAttributeValue (quotedId ++ rowMiddle ++ rowClose) = Some (js "x").
Proof. vm_compute. reflexivity. Qed.

(** ** C3: the panels *)

Lemma closeAllPanels_closed (ui : ChatNavigatorUI) :
  bothClosed (closeAllPanels ui) /\ activePanel (closeAllPanels ui) = None.
Proof. done. Qed.

Lemma closeAllPanels_agree (ui : ChatNavigatorUI) : panelsAgree (closeAllPanels ui).
Proof. intros []; done. Qed.

Lemma togglePanel_agree (type : Kind) (ui : ChatNavigatorUI) : panelsAgree (togglePanel type ui).
Proof.
  unfold togglePanel. destruct (isActivePanel ui type); [apply closeAllPanels_agree|].
  intros k. by destruct type, k.
Qed.

Lemma panelsAgree_exclusive (ui : ChatNavigatorUI) :
  panelsAgree ui ->
  ~ (panelShow (container ui) Questions = true /\ panelShow (container ui) Chats = true).
Proof.
  intros H [Hq Hc]. destruct (H Questions) as [H1 _], (H Chats) as [H2 _].
  rewrite Hq in H1. rewrite Hc in H2. unfold isActivePanel in *.
  by destruct (activePanel ui) as [[]|].
Qed.

Lemma updateContent_panels (w : World) :
  activePanel (updateContent w).2 = activePanel w.2 /\
  updateTimeout (updateContent w).2 = updateTimeout w.2 /\
  (forall k, panelShow (container (updateContent w).2) k = panelShow (container w.2) k) /\
  (forall k, buttonActive (container (updateContent w).2) k = buttonActive (container w.2) k).
Proof.
  destruct w as [h ui]. unfold updateContent.
  destruct (getQuestions (parser ui) (page h) (ids h)) as [qs ids']. simpl.
  repeat split; by intros [].
Qed.

Lemma updateContent_agree (w : World) : panelsAgree w.2 -> panelsAgree (updateContent w).2.
Proof.
  intros H k. destruct (updateContent_panels w) as (Ha & _ & Hp & Hb).
  rewrite Hp, Hb. unfold isActivePanel. rewrite Ha. apply H.
Qed.

Lemma onMutation_agree (w : World) : panelsAgree w.2 -> panelsAgree (onMutation w).2.
Proof. destruct w as [h ui]. intros H k. apply H. Qed.

Lemma rowClick_agree (elementId : jsstring) (w : World) :
  panelsAgree w.2 -> panelsAgree (stateOf (rowClick elementId w)).2.
Proof.
  destruct w as [h ui]. intros H. unfold rowClick.
  destruct (scrollToElement elementId h); simpl; [apply closeAllPanels_agree | done].
Qed.

Lemma dispatch_agree (e : Event) (w : World) : panelsAgree w.2 -> panelsAgree (dispatch e w).2.
Proof.
  intros H. destruct e; simpl.
  - apply togglePanel_agree.
  - by apply rowClick_agree.
  - apply closeAllPanels_agree.
  - unfold documentKeyDown. case_bool_decide; [apply closeAllPanels_agree | done].
  - by apply onMutation_agree.
Qed.

Lemma runTask_agree (tk : Task) (w : World) : panelsAgree w.2 -> panelsAgree (runTask tk w).2.
Proof. destruct tk; simpl; [apply updateContent_agree | done]. Qed.

Lemma fireDue_agree (fuel : nat) (t : Z) (w : World) :
  panelsAgree w.2 -> panelsAgree (fireDue fuel t w).1.2.
Proof.
  revert w. induction fuel as [|fuel IH]; intros w H; simpl; [done|].
  destruct (nextDue t (timers w.1)) as [tm|]; [|done].
  specialize (IH (fire tm w)).
  destruct (fireDue fuel t (fire tm w)) as [w2 tr]. simpl in *. apply IH.
  by apply runTask_agree.
Qed.

Lemma advanceTo_agree (t : Z) (w : World) : panelsAgree w.2 -> panelsAgree (advanceTo t w).1.2.
Proof.
  intros H. unfold advanceTo. pose proof (fireDue_agree (length (timers w.1)) t w H) as H'.
  by destruct (fireDue _ t w) as [w' tr].
Qed.

Lemma run_agree (timeline : list (Z * Event)) (w : World) :
  panelsAgree w.2 -> panelsAgree (run timeline w).1.2.
Proof.
  revert w. induction timeline as [|[t e] rest IH]; intros w H; simpl; [done|].
  pose proof (advanceTo_agree t w H) as H1. destruct (advanceTo t w) as [w1 tr1].
  specialize (IH (dispatch e w1) (dispatch_agree e w1 H1)).
  by destruct (run rest (dispatch e w1)) as [w2 tr2].
Qed.

Lemma newChatNavigatorUI_closed pf h :
  bothClosed (newChatNavigatorUI pf h).2 /\ panelsAgree (newChatNavigatorUI pf h).2.
Proof.
  unfold newChatNavigatorUI.
  pose proof (updateContent_agree (h, constructed pf)) as Hagree.
  destruct (updateContent_panels (h, constructed pf)) as (_ & _ & Hp & _).
  split.
  - split; by rewrite Hp.
  - apply Hagree. by intros [].
Qed.

(** C3.  A fresh controller has both panels closed.  After every finite
    timeline of events (button clicks, row clicks, clicks outside the
    overlay, key presses, change notifications, with the timers firing in
    between) the two panels are never both open.  In every state so reached,
    [togglePanel] on the kind that is open leaves both panels closed, and
    [togglePanel] on a kind that is not open leaves that kind open and the
    other kind closed. *)
Theorem panel_exclusivity pf h (timeline : list (Z * Event)) (type : Kind) :
  bothClosed (newChatNavigatorUI pf h).2 /\
  ~ (panelShow (container (run timeline (newChatNavigatorUI pf h)).1.2) Questions = true /\
     panelShow (container (run timeline (newChatNavigatorUI pf h)).1.2) Chats = true) /\
  (panelShow (container (run timeline (newChatNavigatorUI pf h)).1.2) type = true ->
   bothClosed (togglePanel type (run timeline (newChatNavigatorUI pf h)).1.2)) /\
  (panelShow (container (run timeline (newChatNavigatorUI pf h)).1.2) type = false ->
   panelShow (container (togglePanel type (run timeline (newChatNavigatorUI pf h)).1.2)) type
   = true /\
   panelShow (container (togglePanel type (run timeline (newChatNavigatorUI pf h)).1.2))
     (otherPanel type) = false) /\
  (forall w, bothClosed (dispatch OutsideClick w).2 /\
             bothClosed (dispatch (KeyDown (js "Escape")) w).2).
Proof.
  destruct (newChatNavigatorUI_closed pf h) as [Hclosed Hagree].
  pose proof (run_agree timeline _ Hagree) as H.
  set (ui := (run timeline (newChatNavigatorUI pf h)).1.2) in *.
  split; [done|]. split; [by apply panelsAgree_exclusive|].
  split; [| split].
  - intros Hopen. destruct (H type) as [Hs _]. rewrite Hopen in Hs.
    unfold togglePanel. rewrite <- Hs. apply closeAllPanels_closed.
  - intros Hshut. destruct (H type) as [Hs _]. rewrite Hshut in Hs.
    unfold togglePanel. rewrite <- Hs. by destruct type.
  - intros w. split; apply closeAllPanels_closed.
Qed.

(** Scenario C: with the Questions panel open, the Chats toggle closes it
    and opens Chats; the Questions toggle closes everything. *)
Lemma panel_exclusivity_witness :
  (panelShow
     (container (togglePanel Chats
                   (run [(10%Z, ButtonClick Questions)]
                        (newChatNavigatorUI Grok (hostOf scenarioA ∅ []))).1.2)) Chats = true /\
   panelShow
     (container (togglePanel Chats
                   (run [(10%Z, ButtonClick Questions)]
                        (newChatNavigatorUI Grok (hostOf scenarioA ∅ []))).1.2))
     (otherPanel Chats) = false) /\
  bothClosed (togglePanel Questions
                (run [(10%Z, ButtonClick Questions)]
                     (newChatNavigatorUI Grok (hostOf scenarioA ∅ []))).1.2).
Proof.
  split.
  - apply (proj1 (proj2 (proj2 (proj2
             (panel_exclusivity Grok (hostOf scenarioA ∅ []) [(10%Z, ButtonClick Questions)] Chats))))).
    vm_compute. reflexivity.
  - apply (proj1 (proj2 (proj2
             (panel_exclusivity Grok (hostOf scenarioA ∅ [])
                [(10%Z, ButtonClick Questions)] Questions)))).
    vm_compute. reflexivity.
Defined.

(** ** C9: selection of a row whose id resolves to nothing *)

Example resolvable_selection :
  (fun w => (scrolledIntoView w.1, handle <$> timers w.1, due <$> timers w.1,
             activePanel w.2, panelShow (container w.2) Questions))
    (dispatch (RowClick (js "grok-user-2")) questionsOpen)
  = ([2], [0], [2010%Z], None, false).
Proof. vm_compute. reflexivity. Qed.



(** Outside the case above: when the host rejects the selector text built
    from the id, [scrollToElement] throws, the handler stops there, and the
    panels stay as they were. *)
Lemma rejected_selector_escapes (elementId : jsstring) (h : Host) (ui : ChatNavigatorUI) :
  getElementById h elementId = None ->
  querySelectorRuntime h (dataIdSelector elementId) = None ->
  rowClick elementId (h, ui) = Thrown (h, ui).
Proof.
  intros Hid Hsel. unfold rowClick, scrollToElement. by rewrite Hid, Hsel.
Qed.

(** ** C8: the debounce *)

Example burst_of_four :
  refreshes (runUntil 5000 (notifications [100; 300; 700; 1100]%Z)
               (newChatNavigatorUI Grok (hostOf scenarioA ∅ []))).2
  = [1600%Z].
Proof. vm_compute. reflexivity. Qed.

Example two_bursts :
  refreshes (runUntil 5000 (notifications [100; 300; 800; 1100]%Z)
               (newChatNavigatorUI Grok (hostOf scenarioA ∅ []))).2
  = [800%Z; 1600%Z].
Proof. vm_compute. reflexivity. Qed.

Lemma earliest_spec (best : option Timer) (l : list Timer) :
  match earliest best l with
  | Some tm =>
      (best = Some tm \/ tm ∈ l) /\
      (forall b, best = Some b -> (due tm <= due b)%Z) /\
      (forall x, x ∈ l -> (due tm <= due x)%Z)
  | None => best = None /\ l = []
  end.
Proof.
  revert best. induction l as [|x l IH]; intros best; simpl.
  - destruct best as [b|]; [|done]. split; [by left|]. split.
    + by intros ? [= <-].
    + by intros ? ?%elem_of_nil.
  - match goal with |- context [earliest ?b l] => specialize (IH b) end.
    destruct (earliest _ l) as [tm|].
    + destruct IH as (Hin & Hbest & Hall). destruct best as [b|].
      * destruct (Z.ltb_spec (due x) (due b)).
        -- split; [|split].
           ++ destruct Hin as [[= <-]|Hin]; right; [left | by right].
           ++ intros ? [= <-]. specialize (Hbest x eq_refl). lia.
           ++ intros y [->|Hy]%elem_of_cons; [by apply Hbest | by apply Hall].
        -- split; [|split].
           ++ destruct Hin as [Hin|Hin]; [by left | right; by right].
           ++ done.
           ++ intros y [->|Hy]%elem_of_cons; [|by apply Hall].
              specialize (Hbest b eq_refl). lia.
      * split; [|split].
        -- destruct Hin as [[= <-]|Hin]; right; [left | by right].
        -- done.
        -- intros y [->|Hy]%elem_of_cons; [by apply Hbest | by apply Hall].
    + destruct IH as [Hb _]. by destruct best as [b|]; [destruct (due x <? due b)%Z|].
Qed.

Lemma nextDue_Some (t : Z) (l : list Timer) (tm : Timer) :
  nextDue t l = Some tm ->
  tm ∈ l /\ (due tm <= t)%Z /\ forall x, x ∈ l -> (due x <= t)%Z -> (due tm <= due x)%Z.
Proof.
  unfold nextDue. intros H. pose proof (earliest_spec None (List.filter (fun x => (due x <=? t)%Z) l)) as Hs.
  rewrite H in Hs. destruct Hs as ([?|Hin] & _ & Hall); [done|].
  apply list_elem_of_In, filter_In in Hin as [Hin Hdue].
  split; [by apply list_elem_of_In|]. split; [lia|].
  intros x Hx Hxt. apply Hall. apply list_elem_of_In, filter_In.
  split; [by apply list_elem_of_In | lia].
Qed.

Lemma nextDue_None (t : Z) (l : list Timer) :
  nextDue t l = None -> forall x, x ∈ l -> (t < due x)%Z.
Proof.
  unfold nextDue. intros H x Hx.
  pose proof (earliest_spec None (List.filter (fun x => (due x <=? t)%Z) l)) as Hs.
  rewrite H in Hs. destruct Hs as [_ Hnil].
  destruct (Z.leb_spec (due x) t) as [Hle|]; [|done].
  assert (In x (List.filter (fun x => (due x <=? t)%Z) l)) as Hin.
  { apply filter_In. split; [by apply list_elem_of_In | lia]. }
  rewrite Hnil in Hin. done.
Qed.

Lemma runTask_host (tk : Task) (w : World) :
  timers (runTask tk w).1 = timers w.1 /\
  nextHandle (runTask tk w).1 = nextHandle w.1 /\
  now (runTask tk w).1 = now w.1 /\
  updateTimeout (runTask tk w).2 = updateTimeout w.2.
Proof.
  destruct tk; simpl; [|done]. destruct w as [h ui]. unfold updateContent.
  by destruct (getQuestions (parser ui) (page h) (ids h)).
Qed.

Lemma fire_host (tm : Timer) (w : World) :
  timers (fire tm w).1 = List.filter (fun x => negb (handle x =? handle tm)) (timers w.1) /\
  nextHandle (fire tm w).1 = nextHandle w.1 /\
  now (fire tm w).1 = Z.max (now w.1) (due tm) /\
  updateTimeout (fire tm w).2 = updateTimeout w.2.
Proof.
  unfold fire.
  match goal with |- context [runTask ?tk ?w0] => destruct (runTask_host tk w0) as (-> & -> & -> & ->) end.
  done.
Qed.

Lemma Forall_List_filter {A : Type} (P : A -> Prop) (f : A -> bool) (l : list A) :
  Forall P l -> Forall P (List.filter f l).
Proof.
  induction 1 as [|x l Hx _ IH]; simpl; [done|]. destruct (f x); [by constructor | done].
Qed.

Lemma filter_length_lt {A : Type} (f : A -> bool) (l : list A) (x : A) :
  x ∈ l -> f x = false -> length (List.filter f l) < length l.
Proof.
  induction 1 as [x l | x y l Hin IH]; intros Hf; simpl.
  - rewrite Hf. pose proof (List.filter_length_le f l). lia.
  - specialize (IH Hf). destruct (f y); simpl; lia.
Qed.

Lemma fire_fewer (tm : Timer) (w : World) :
  tm ∈ timers w.1 -> length (timers (fire tm w).1) < length (timers w.1).
Proof.
  intros Hin. destruct (fire_host tm w) as (-> & _).
  apply (filter_length_lt _ _ tm Hin). by rewrite Nat.eqb_refl.
Qed.







(** The fuel [advanceTo] gives [fireDue] is enough: afterwards no pending
    timer is due. *)
Lemma fireDue_complete (fuel : nat) (t : Z) (w : World) :
  length (timers w.1) <= fuel ->
  forall tm, tm ∈ timers (fireDue fuel t w).1.1 -> (t < due tm)%Z.
Proof.
  revert w. induction fuel as [|fuel IH]; intros w Hfuel tm; cbn [fireDue].
  - destruct (timers w.1) eqn:Ht; [|simpl in Hfuel; lia].
    cbn [fst]. rewrite Ht. by intros ?%elem_of_nil.
  - destruct (nextDue t (timers w.1)) as [next|] eqn:Hnext.
    + apply nextDue_Some in Hnext as (Hin & _ & _).
      pose proof (fire_fewer next w Hin) as Hfewer.
      specialize (IH (fire next w) ltac:(lia) tm).
      by destruct (fireDue fuel t (fire next w)) as [w2 tr].
    + cbn [fst]. by apply nextDue_None.
Qed.

Lemma advanceTo_complete (t : Z) (w : World) :
  forall tm, tm ∈ timers (advanceTo t w).1.1 -> (t < due tm)%Z.
Proof.
  intros tm. unfold advanceTo.
  pose proof (fireDue_complete (length (timers w.1)) t w (le_n _) tm) as H.
  by destruct (fireDue (length (timers w.1)) t w) as [w' tr].
Qed.

(** Handles stay fresh along every timeline, so the handle [setTimeout]
    returns never names an older pending timer. *)
Lemma dispatch_handlesFresh (e : Event) (w : World) :
  handlesFresh w.1 -> handlesFresh (dispatch e w).1.
Proof.
  intros Hfresh. destruct w as [h ui]. unfold handlesFresh in *. cbn [fst] in *.
  assert (forall k, Forall (fun tm => handle tm < nextHandle (clearTimeout k h))
                           (timers (clearTimeout k h))) as Hclear.
  { intros [k|]; [|done]. by apply Forall_List_filter. }
  assert (forall tk d h0,
            Forall (fun tm => handle tm < nextHandle h0) (timers h0) ->
            Forall (fun tm => handle tm < nextHandle (setTimeout tk d h0).2)
                   (timers (setTimeout tk d h0).2)) as Hset.
  { intros tk d h0 H0. unfold setTimeout. cbn [snd set_timers timers nextHandle].
    apply Forall_app. split.
    - eapply Forall_impl; [exact H0|]. intros tm ?. simpl in *. lia.
    - constructor; [simpl; lia | constructor]. }
  destruct e as [type | eid | | key |];
    cbn [dispatch documentClick documentKeyDown negb fst snd]; try done.
  - unfold rowClick, scrollToElement.
    destruct (getElementById h eid) as [el|]; cbn [stateOf fst].
    + unfold scrollAndHighlight. by apply Hset.
    + destruct (querySelectorRuntime h (dataIdSelector eid)) as [[el|]|];
        cbn [stateOf fst]; [|done..].
      unfold scrollAndHighlight. by apply Hset.
  - unfold documentKeyDown. destruct (bool_decide (key = js "Escape")); exact Hfresh.
  - unfold onMutation.
    pose proof (Hset Refresh 500%Z _ (Hclear (updateTimeout ui))) as H.
    by destruct (setTimeout Refresh 500 (clearTimeout (updateTimeout ui) h)).
Qed.

Lemma fireDue_handlesFresh (fuel : nat) (t : Z) (w : World) :
  handlesFresh w.1 -> handlesFresh (fireDue fuel t w).1.1.
Proof.
  revert w. induction fuel as [|fuel IH]; intros w Hfresh; cbn [fireDue]; [done|].
  destruct (nextDue t (timers w.1)) as [tm|]; [|done].
  assert (handlesFresh (fire tm w).1) as Hnext.
  { destruct (fire_host tm w) as (Ht & Hn & _). unfold handlesFresh.
    rewrite Ht, Hn. by apply Forall_List_filter. }
  specialize (IH _ Hnext). by destruct (fireDue fuel t (fire tm w)).
Qed.

Lemma run_handlesFresh (timeline : list (Z * Event)) (w : World) :
  handlesFresh w.1 -> handlesFresh (run timeline w).1.1.
Proof.
  revert w. induction timeline as [|[t e] rest IH]; intros w Hfresh; [done|].
  cbn [run]. unfold advanceTo.
  pose proof (fireDue_handlesFresh (length (timers w.1)) t w Hfresh) as H1.
  destruct (fireDue (length (timers w.1)) t w) as [w' tr].
  match goal with |- context [dispatch e ?w1] =>
    specialize (IH (dispatch e w1) (dispatch_handlesFresh e w1 H1)) end.
  by destruct (run rest _).
Qed.











Lemma newChatNavigatorUI_idle pf pg stamped els :
  idle (newChatNavigatorUI pf (hostOf pg stamped els)).
Proof.
  unfold newChatNavigatorUI.
  destruct (runTask_host Refresh (hostOf pg stamped els, constructed pf)) as (Ht & Hn & _ & _).
  unfold idle, handlesFresh. cbn [runTask] in Ht, Hn. unfold constructed in *.
  rewrite Ht. split; constructor.
Qed.


(** * Further properties of the extractors *)

Lemma stampId_frame pf (m : node) (i : nat) (ids : gmap node jsstring) (n : node) :
  n <> m -> (stampId pf m i ids).2 !! n = ids !! n.
Proof.
  intros Hn. unfold stampId, setElementId.
  destruct pf; cbn [snd]; try (destruct (negb (truthy (elementId ids m))));
    by rewrite ?lookup_insert_ne.
Qed.

Lemma stampAll_frame pf (l : list (nat * node * jsstring)) (ids : gmap node jsstring) (n : node) :
  (forall c, c ∈ l -> c.1.2 <> n) -> (stampAll pf l ids).2 !! n = ids !! n.
Proof.
  revert ids. induction l as [|c l IH]; intros ids Hn; [done|]. cbn [stampAll snd].
  rewrite IH by (intros c' Hc'; apply Hn; by right).
  apply stampId_frame. intros ->. by apply (Hn c); [left|].
Qed.

(** X1.  An extraction pass writes the id of no element other than the
    accepted candidates: an element that is no candidate, or a candidate
    that is rejected, has after the pass exactly the id attribute it had
    before. *)
Theorem getQuestions_writes_only_accepted pf pg (ids : gmap node jsstring) (n : node) :
  n ∉ userMessages pf pg \/ accepted pf pg n = None ->
  (getQuestions pf pg ids).2 !! n = ids !! n.
Proof.
  intros Hn. rewrite getQuestions_stampAll. apply stampAll_frame.
  intros c (_ & Hl & Hacc)%elem_of_acceptedFrom Heq. subst n.
  destruct Hn as [Hn|Hn]; [|congruence].
  apply Hn. by eapply list_elem_of_lookup_2.
Qed.

Lemma getQuestions_writes_only_accepted_witness :
  (getQuestions Grok scenarioA scenarioA_ids).2 !! 0 = scenarioA_ids !! 0 /\
  (getQuestions Grok scenarioA scenarioA_ids).2 !! 7 = scenarioA_ids !! 7.
Proof.
  split.
  - apply (getQuestions_writes_only_accepted Grok scenarioA scenarioA_ids 0).
    right. vm_compute. reflexivity.
  - apply (getQuestions_writes_only_accepted Grok scenarioA scenarioA_ids 7).
    left. vm_compute. intros H. repeat (apply elem_of_cons in H as [H|H]; [discriminate|]).
    by apply elem_of_nil in H.
Defined.

Lemma updateContent_host (h : Host) (ui : ChatNavigatorUI) :
  (updateContent (h, ui)).1 = set_ids (getQuestions (parser ui) (page h) (ids h)).2 h.
Proof.
  unfold updateContent. by destruct (getQuestions (parser ui) (page h) (ids h)).
Qed.

Lemma getElementById_found (h : Host) (id : jsstring) (m : node) :
  id <> [] -> m ∈ elements h -> elementId (ids h) m = id ->
  exists el, getElementById h id = Some el /\ el ∈ elements h /\ elementId (ids h) el = id.
Proof.
  intros Hid Hm Hmid. unfold getElementById.
  apply truthy_nonempty in Hid. rewrite Hid.
  destruct (List.find _ (elements h)) as [el|] eqn:Hfind.
  - apply find_some in Hfind as [Hin Hdec]. apply bool_decide_eq_true in Hdec.
    exists el. by rewrite list_elem_of_In.
  - apply list_elem_of_In in Hm. pose proof (find_none _ _ Hfind m Hm) as Hno.
    apply bool_decide_eq_false in Hno. done.
Qed.



(** ** Synthesized ids are distinct *)

Lemma js_inj (s1 s2 : string) : js s1 = js s2 -> s1 = s2.
Proof.
  unfold js. intros H.
  assert (list_ascii_of_string s1 = list_ascii_of_string s2) as Hl.
  { revert H. generalize (list_ascii_of_string s1), (list_ascii_of_string s2).
    intros l1. induction l1 as [|a l1 IH]; intros [|b l2]; simpl; try done.
    intros [= Hab Hrest]. f_equal; [|by apply IH].
    rewrite <- (ascii_N_embedding a), <- (ascii_N_embedding b). by rewrite Hab. }
  rewrite <- (string_of_list_ascii_of_string s1), <- (string_of_list_ascii_of_string s2).
  by rewrite Hl.
Qed.

Lemma decimal_inj (i j : nat) : decimal i = decimal j -> i = j.
Proof.
  unfold decimal. intros H%js_inj.
  assert (Nat.to_uint i = Nat.to_uint j) as Hu.
  { pose proof (NilEmpty.usu (Nat.to_uint i)) as Hi.
    pose proof (NilEmpty.usu (Nat.to_uint j)) as Hj.
    rewrite H in Hi. rewrite Hi in Hj. by injection Hj. }
  rewrite <- (Unsigned.of_to i), <- (Unsigned.of_to j). by rewrite Hu.
Qed.

Lemma syntheticId_inj pf (i j : nat) : syntheticId pf i = syntheticId pf j -> i = j.
Proof. unfold syntheticId. intros H%app_inv_head. by apply decimal_inj. Qed.

Lemma acceptedFrom_positions_NoDup pf pg (i : nat) (l : list node) :
  NoDup ((fun c => c.1.1) <$> acceptedFrom pf pg i l).
Proof.
  revert i. induction l as [|m l IH]; intros i; [constructor|].
  unfold acceptedFrom. cbn [indexedFrom omap list_omap fst snd].
  fold (acceptedFrom pf pg (S i) l).
  destruct (accepted pf pg m) as [T|]; cbn [fmap option_fmap option_map]; [|apply IH].
  cbn [fmap list_fmap fst]. constructor; [|apply IH].
  intros (c & Heq & Hc)%list_elem_of_fmap.
  apply elem_of_acceptedFrom in Hc as (Hle & _). cbn [fst] in Heq. lia.
Qed.

Lemma acceptedFrom_nodes pf pg (i : nat) (l : list node) :
  (fun c => c.1.2) <$> acceptedFrom pf pg i l = List.filter (isAccepted pf pg) l.
Proof.
  revert i. induction l as [|m l IH]; intros i; [done|].
  unfold acceptedFrom, isAccepted. cbn [indexedFrom omap list_omap fst snd List.filter].
  fold (acceptedFrom pf pg (S i) l). fold (isAccepted pf pg).
  destruct (accepted pf pg m) as [T|]; cbn [fmap option_fmap option_map list_fmap];
    [cbn [fst snd]; f_equal|]; apply IH.
Qed.

Lemma stampAll_unstamped pf (l : list (nat * node * jsstring)) (ids : gmap node jsstring) :
  NoDup ((fun c => c.1.2) <$> l) ->
  (forall c, c ∈ l -> elementId ids c.1.2 = []) ->
  (stampAll pf l ids).1
  = (fun c => {| q_id := syntheticId pf c.1.1; q_text := truncate 100 c.2 |}) <$> l /\
  (forall c, c ∈ l -> elementId (stampAll pf l ids).2 c.1.2 = syntheticId pf c.1.1).
Proof.
  revert ids. induction l as [|c l IH]; intros ids Hnd Hun.
  - split; [done|]. by intros ? ?%elem_of_nil.
  - cbn [fmap list_fmap] in Hnd. apply NoDup_cons in Hnd as [Hnotin Hnd].
    assert (stampId pf c.1.2 c.1.1 ids
            = (syntheticId pf c.1.1, setElementId ids c.1.2 (syntheticId pf c.1.1))) as Hs.
    { pose proof (Hun c ltac:(left)) as He. unfold stampId, js_or. rewrite He.
      by destruct pf. }
    assert (forall c', c' ∈ l -> c'.1.2 <> c.1.2) as Hother.
    { intros c' Hc' Heq. apply Hnotin. apply list_elem_of_fmap. by exists c'. }
    destruct (IH (setElementId ids c.1.2 (syntheticId pf c.1.1)) Hnd) as [IH1 IH2].
    { intros c' Hc'. rewrite elementId_insert.
      destruct (decide (c.1.2 = c'.1.2)) as [Heq|_]; [by destruct (Hother c' Hc')|].
      apply Hun. by right. }
    cbn [stampAll]. rewrite Hs. cbn [fst snd]. split.
    + cbn [fmap list_fmap]. by rewrite IH1.
    + intros c' [->|Hc']%elem_of_cons; [|by apply IH2].
      unfold elementId at 1. rewrite stampAll_frame by done.
      fold (elementId (setElementId ids c.1.2 (syntheticId pf c.1.1)) c.1.2).
      rewrite elementId_insert. by destruct (decide (c.1.2 = c.1.2)).
Qed.

Lemma acceptedCandidates_nodes_NoDup pf pg :
  NoDup (userMessages pf pg) -> NoDup ((fun c => c.1.2) <$> acceptedCandidates pf pg).
Proof.
  intros Hnd. unfold acceptedCandidates. rewrite acceptedFrom_nodes.
  apply NoDup_ListNoDup, List.NoDup_filter. by apply NoDup_ListNoDup.
Qed.

(** X3.  DeepSeek's Question ids are pairwise distinct in every pass,
    whatever the page and whatever ids its elements carry. *)
Theorem deepseek_ids_distinct pg (ids : gmap node jsstring) :
  NoDup (q_id <$> (getQuestions DeepSeek pg ids).1).
Proof.
  rewrite getQuestions_stampAll, stampAll_deepseek, <- list_fmap_compose.
  pose proof (acceptedFrom_positions_NoDup DeepSeek pg 0 (userMessages DeepSeek pg)) as Hnd.
  change (acceptedFrom DeepSeek pg 0 (userMessages DeepSeek pg))
    with (acceptedCandidates DeepSeek pg) in Hnd.
  rewrite (list_fmap_ext _ (syntheticId DeepSeek ∘ (fun c => c.1.1)) (acceptedCandidates DeepSeek pg))
    by done.
  rewrite list_fmap_compose. apply NoDup_fmap_2; [|done].
  intros i j. apply syntheticId_inj.
Qed.

(** X4.  On every platform, when no element is a candidate twice and no
    candidate carries an id yet, the returned Questions carry pairwise
    distinct ids. *)
Theorem fresh_ids_distinct pf pg (ids : gmap node jsstring) :
  NoDup (userMessages pf pg) ->
  (forall m, m ∈ userMessages pf pg -> elementId ids m = []) ->
  NoDup (q_id <$> (getQuestions pf pg ids).1).
Proof.
  intros Hnd Hun. rewrite getQuestions_stampAll.
  destruct (stampAll_unstamped pf (acceptedCandidates pf pg) ids) as [-> _].
  - by apply acceptedCandidates_nodes_NoDup.
  - intros c (_ & Hl & _)%elem_of_acceptedFrom. apply Hun.
    by eapply list_elem_of_lookup_2.
  - rewrite <- list_fmap_compose.
    rewrite (list_fmap_ext _ (syntheticId pf ∘ (fun c => c.1.1)) (acceptedCandidates pf pg))
      by done.
    rewrite list_fmap_compose. apply NoDup_fmap_2; [intros i j; apply syntheticId_inj|].
    apply acceptedFrom_positions_NoDup.
Qed.

Lemma fresh_ids_distinct_witness :
  NoDup (q_id <$> (getQuestions Grok scenarioA ∅).1).
Proof.
  apply (fresh_ids_distinct Grok scenarioA ∅).
  - vm_compute. repeat (constructor; [intros H; repeat (apply elem_of_cons in H as [H|H]; [discriminate|]); by apply elem_of_nil in H|]). constructor.
  - intros m _. reflexivity.
Defined.

(** X5.  From extraction to selection: on a page where no element is a
    candidate twice and no element of the document carries an id yet, the
    [k]-th Question listed after a refresh carries the id synthesized for
    the position of the [k]-th accepted candidate, and selecting it scrolls
    to and highlights that very element. *)
Theorem selection_reaches_source (h : Host) (ui : ChatNavigatorUI) (k : nat) (q : Question) :
  NoDup (userMessages (parser ui) (page h)) ->
  (forall n, n ∈ elements h -> elementId (ids h) n = []) ->
  (forall m, m ∈ userMessages (parser ui) (page h) -> m ∈ elements h) ->
  questions (updateContent (h, ui)).2 !! k = Some q ->
  exists index message T,
    acceptedCandidates (parser ui) (page h) !! k = Some (index, message, T) /\
    userMessages (parser ui) (page h) !! index = Some message /\
    q_id q = syntheticId (parser ui) index /\
    scrollToElement (q_id q) (updateContent (h, ui)).1
    = Returned (scrollAndHighlight message (updateContent (h, ui)).1).
Proof.
  intros Hnd Hun Hels Hk.
  destruct (updateContent_lists (h, ui)) as (Hqs & _). cbn [fst snd] in Hqs.
  rewrite Hqs in Hk. rewrite updateContent_host. rewrite getQuestions_stampAll in *.
  set (pf := parser ui) in *. set (l := acceptedCandidates pf (page h)) in *.
  destruct (stampAll_unstamped pf l (ids h)) as [Hout Hfin].
  { by apply acceptedCandidates_nodes_NoDup. }
  { intros c (_ & Hl & _)%elem_of_acceptedFrom. apply Hun, Hels.
    by eapply list_elem_of_lookup_2. }
  rewrite Hout, list_lookup_fmap in Hk.
  destruct (l !! k) as [c|] eqn:Hc; [|done]. injection Hk as <-. cbn [q_id].
  destruct (acceptedCandidates_lookup _ _ _ _ Hc) as [Hl Hacc].
  exists c.1.1, c.1.2, c.2. split; [by destruct c as [[? ?] ?]|]. split; [done|]. split; [done|].
  set (h' := set_ids (stampAll pf l (ids h)).2 h).
  destruct (getElementById_found h' (syntheticId pf c.1.1) c.1.2) as (el & Hget & Hin & Hid).
  { apply syntheticId_nonempty. }
  { apply Hels. by eapply list_elem_of_lookup_2. }
  { apply Hfin. by eapply list_elem_of_lookup_2. }
  assert (el = c.1.2) as ->; [|unfold scrollToElement; by rewrite Hget].
  cbn [h' ids set_ids] in Hid.
  destruct (decide (el ∈ (fun c => c.1.2) <$> l)) as [Hel|Hel].
  - apply list_elem_of_fmap in Hel as (c' & -> & Hc').
    rewrite (Hfin c' Hc') in Hid. apply syntheticId_inj in Hid.
    apply list_elem_of_lookup_1 in Hc' as [k' Hk'].
    destruct (acceptedCandidates_lookup _ _ _ _ Hk') as [Hl' _].
    rewrite Hid in Hl'. congruence.
  - unfold elementId in Hid. rewrite stampAll_frame in Hid.
    + fold (elementId (ids h) el) in Hid. rewrite (Hun el Hin) in Hid.
      symmetry in Hid. by apply syntheticId_nonempty in Hid.
    + intros c' Hc' Heq. apply Hel. apply list_elem_of_fmap. by exists c'.
Qed.

Lemma selection_reaches_source_witness :
  exists index message T,
    acceptedCandidates Grok scenarioA !! 1 = Some (index, message, T) /\
    userMessages Grok scenarioA !! index = Some message /\
    js "grok-user-2" = syntheticId Grok index /\
    scrollToElement (js "grok-user-2")
      (updateContent (hostOf scenarioA ∅ [0; 1; 2], constructed Grok)).1
    = Returned (scrollAndHighlight message
                  (updateContent (hostOf scenarioA ∅ [0; 1; 2], constructed Grok)).1).
Proof.
  apply (selection_reaches_source (hostOf scenarioA ∅ [0; 1; 2]) (constructed Grok) 1
           {| q_id := js "grok-user-2"; q_text := textOfLength 100 ++ marker |}).
  - vm_compute. repeat (constructor; [intros H; repeat (apply elem_of_cons in H as [H|H]; [discriminate|]); by apply elem_of_nil in H|]). constructor.
  - intros n _. reflexivity.
  - vm_compute. intros m Hm. exact Hm.
  - vm_compute. reflexivity.
Defined.

(** ** Candidates found by more than one selector *)

Lemma queryEach_app pg (sels1 sels2 : list string) (acc : list node) :
  queryEach pg (sels1 ++ sels2) acc = queryEach pg sels2 (queryEach pg sels1 acc).
Proof. unfold queryEach. apply foldl_app. Qed.

Lemma queryEach_extends pg (sels : list string) (acc : list node) :
  exists found, queryEach pg sels acc = acc ++ found.
Proof.
  revert acc. induction sels as [|s sels IH]; intros acc.
  - exists []. by rewrite app_nil_r.
  - destruct (IH (acc ++ querySelectorAll pg s)) as [found Hfound].
    exists (querySelectorAll pg s ++ found). cbn [queryEach foldl] in *.
    unfold queryEach in Hfound. by rewrite Hfound, app_assoc.
Qed.

Lemma userMessages_union pf pg :
  exists others, userMessages pf pg = queryEach pg (userSelectors pf) [] ++ others.
Proof.
  destruct pf; try (by exists (userMessages _ pg)); try (by eexists).
  exists []. by rewrite app_nil_r.
Qed.

Lemma questions_by_node pf pg (ids : gmap node jsstring) :
  reusesId pf = true ->
  (getQuestions pf pg ids).1
  = (fun m => {| q_id := elementId (getQuestions pf pg ids).2 m;
                 q_text := truncate 100 (default [] (accepted pf pg m)) |})
      <$> List.filter (isAccepted pf pg) (userMessages pf pg).
Proof.
  intros Hreuse. rewrite getQuestions_stampAll.
  destruct (stampAll_final pf Hreuse (acceptedCandidates pf pg) ids) as [Hout _].
  rewrite Hout at 1. rewrite <- (acceptedFrom_nodes pf pg 0 (userMessages pf pg)).
  change (acceptedFrom pf pg 0 (userMessages pf pg)) with (acceptedCandidates pf pg).
  rewrite <- list_fmap_compose.
  apply list_fmap_ext. intros k c Hc.
  destruct (acceptedCandidates_lookup _ _ _ _ Hc) as [_ Hacc].
  cbn [compose]. by rewrite Hacc.
Qed.

(** X6.  Candidates are not de-duplicated.  On Perplexity, Gemini, Copilot,
    Meta and Grok, an accepted element that two of the platform's user
    selectors both return is listed twice: the returned sequence holds the
    same Question, id and text, more than once. *)
Theorem overlapping_selectors_duplicate pf pg (ids : gmap node jsstring)
    (i j : nat) (s1 s2 : string) (n : node) :
  i < j ->
  userSelectors pf !! i = Some s1 -> userSelectors pf !! j = Some s2 ->
  n ∈ querySelectorAll pg s1 -> n ∈ querySelectorAll pg s2 ->
  is_Some (accepted pf pg n) ->
  ~ NoDup (getQuestions pf pg ids).1 /\ ~ NoDup (q_id <$> (getQuestions pf pg ids).1).
Proof.
  intros Hij Hs1 Hs2 Hn1 Hn2 [T Hacc].
  assert (reusesId pf = true) as Hreuse by (by destruct pf).
  assert (~ NoDup (List.filter (isAccepted pf pg) (userMessages pf pg))) as Hdup.
  { destruct (userMessages_union pf pg) as [others ->].
    rewrite <- (take_drop_middle _ _ _ Hs2), queryEach_app.
    change (s2 :: drop (S j) (userSelectors pf)) with ([s2] ++ drop (S j) (userSelectors pf)).
    rewrite queryEach_app.
    destruct (queryEach_extends pg (drop (S j) (userSelectors pf))
                (queryEach pg [s2] (queryEach pg (take j (userSelectors pf)) []))) as [later ->].
    cbn [queryEach foldl]. fold (queryEach pg (take j (userSelectors pf)) []).
    assert (n ∈ queryEach pg (take j (userSelectors pf)) []) as Hearlier.
    { rewrite <- (take_drop_middle (take j (userSelectors pf)) i s1)
        by (by rewrite lookup_take_lt).
      rewrite queryEach_app.
      change (s1 :: drop (S i) (take j (userSelectors pf)))
        with ([s1] ++ drop (S i) (take j (userSelectors pf))).
      rewrite queryEach_app.
      destruct (queryEach_extends pg (drop (S i) (take j (userSelectors pf)))
                  (queryEach pg [s1] (queryEach pg (take i (take j (userSelectors pf))) [])))
        as [more ->].
      cbn [queryEach foldl]. rewrite !elem_of_app. left. by right. }
    rewrite <- !app_assoc, !List.filter_app.
    intros (_ & Hdisj & _)%NoDup_app.
    assert (isAccepted pf pg n = true) as Hyes by (unfold isAccepted; by rewrite Hacc).
    apply (Hdisj n).
    - apply list_elem_of_In, filter_In. by rewrite <- list_elem_of_In.
    - apply elem_of_app. left. apply list_elem_of_In, filter_In. by rewrite <- list_elem_of_In. }
  assert (~ NoDup (getQuestions pf pg ids).1) as Hq.
  { rewrite (questions_by_node pf pg ids Hreuse). by intros ?%NoDup_fmap_1. }
  split; [exact Hq|].
  rewrite (questions_by_node pf pg ids Hreuse), <- list_fmap_compose.
  by intros ?%NoDup_fmap_1.
Qed.

Lemma overlapping_selectors_duplicate_witness :
  ~ NoDup (getQuestions Grok overlappingSelectors ∅).1 /\
  ~ NoDup (q_id <$> (getQuestions Grok overlappingSelectors ∅).1).
Proof.
  apply (overlapping_selectors_duplicate Grok overlappingSelectors ∅ 1 2
           ".user-message" (attr "class" "*=" "user") 0).
  - lia.
  - reflexivity.
  - reflexivity.
  - vm_compute. left.
  - vm_compute. left.
  - vm_compute. by eexists.
Defined.

Example overlapping_selectors_ids :
  q_id <$> (getQuestions Grok overlappingSelectors ∅).1 = [js "grok-user-0"; js "grok-user-0"].
Proof. vm_compute. reflexivity. Qed.

(** ** Counts, missing text nodes, trimming *)

Lemma acceptedFrom_length pf pg (i : nat) (l : list node) :
  length (acceptedFrom pf pg i l) = length (List.filter (isAccepted pf pg) l).
Proof. by rewrite <- (acceptedFrom_nodes pf pg i l), length_fmap. Qed.

(** X7.  A pass returns exactly one Question per accepted candidate, so
    never more Questions than candidates; the history scan returns at most
    one Chat per history entry, and [getChats] at most one Chat when there
    is no history entry at all. *)
Theorem extraction_counts pf pg (ids : gmap node jsstring) :
  length (getQuestions pf pg ids).1
  = length (List.filter (isAccepted pf pg) (userMessages pf pg)) /\
  length (getQuestions pf pg ids).1 <= length (userMessages pf pg) /\
  length (historyChats pf pg) <= length (chatItems pf pg) /\
  length (getChats pf pg) <= Nat.max 1 (length (chatItems pf pg)).
Proof.
  assert (length (getQuestions pf pg ids).1
          = length (List.filter (isAccepted pf pg) (userMessages pf pg))) as Hq.
  { rewrite getQuestions_stampAll, stampAll_length. apply acceptedFrom_length. }
  assert (length (historyChats pf pg) <= length (chatItems pf pg)) as Hc.
  { rewrite historyChats_chatAt.
    assert (forall (i : nat) (l : list node),
              length (omap (chatAt pf pg) (indexedFrom i l)) <= length l) as H.
    { intros i l. revert i. induction l as [|x l IH]; intros i; cbn [indexedFrom omap list_omap];
        [done|]. specialize (IH (S i)). destruct (chatAt pf pg (i, x)); simpl; lia. }
    apply H. }
  split; [exact Hq|]. split; [|split; [exact Hc|]].
  - rewrite Hq. apply List.filter_length_le.
  - unfold getChats. destruct (historyChats pf pg) as [|c cs] eqn:Hh; cbn [length Nat.eqb].
    + cbn [app]. pose proof (currentChat_length pf pg). lia.
    + simpl in Hc. lia.
Qed.

Lemma resolvedText_self pf pg (l : list node) :
  (forall m, m ∈ l -> elQuerySelector pg m (textSelector pf) = None) ->
  omap (resolvedText pf pg) l
  = match pf with
    | ChatGPT | DeepSeek => []
    | _ => (fun m => trim (textContent pg m)) <$> l
    end.
Proof.
  induction l as [|m l IH]; intros Hnone; [by destruct pf|].
  cbn [omap list_omap]. rewrite IH by (intros m' Hm'; apply Hnone; by right).
  unfold resolvedText, textElement. rewrite (Hnone m ltac:(left)).
  by destruct pf.
Qed.

(** X8.  When no candidate has an inner text-bearing node: ChatGPT and
    DeepSeek return no Question and write no id, while the other platforms
    fall back to each candidate's own text and return, in order, the
    previews of the candidates whose own trimmed text passes the filter. *)
Theorem candidates_without_text_node pf pg (ids : gmap node jsstring) :
  (forall m, m ∈ userMessages pf pg -> elQuerySelector pg m (textSelector pf) = None) ->
  match pf with
  | ChatGPT | DeepSeek => getQuestions pf pg ids = ([], ids)
  | _ =>
      q_text <$> (getQuestions pf pg ids).1
      = truncate 100 <$>
          List.filter (keepsText pf) ((fun m => trim (textContent pg m)) <$> userMessages pf pg)
  end.
Proof.
  intros Hnone.
  assert (q_text <$> (getQuestions pf pg ids).1
          = truncate 100 <$> List.filter (keepsText pf)
                               (omap (resolvedText pf pg) (userMessages pf pg))) as Htexts.
  { rewrite getQuestions_stampAll, stampAll_texts. unfold acceptedCandidates.
    rewrite <- (acceptedFrom_texts pf pg 0). by rewrite <- list_fmap_compose. }
  rewrite (resolvedText_self pf pg _ Hnone) in Htexts.
  assert (acceptedCandidates pf pg = [] -> getQuestions pf pg ids = ([], ids)) as Hempty.
  { intros He. by rewrite getQuestions_stampAll, He. }
  assert (pf = ChatGPT \/ pf = DeepSeek -> acceptedCandidates pf pg = []) as Hnoacc.
  { intros Hpf. apply length_zero_iff_nil. unfold acceptedCandidates.
    rewrite <- (length_fmap (fun c => c.2)), acceptedFrom_texts.
    rewrite (resolvedText_self pf pg _ Hnone). by destruct Hpf as [-> | ->]. }
  destruct pf; try exact Htexts; apply Hempty, Hnoacc; auto.
Qed.

Lemma candidates_without_text_node_witness :
  getQuestions ChatGPT (bareMessage (attr "data-message-author-role" "=" "user")) ∅ = ([], ∅) /\
  q_text <$> (getQuestions Grok (bareMessage ".user-message") ∅).1
  = truncate 100 <$>
      List.filter (keepsText Grok)
        ((fun m => trim (textContent (bareMessage ".user-message") m))
           <$> userMessages Grok (bareMessage ".user-message")).
Proof.
  split.
  - apply (candidates_without_text_node ChatGPT
             (bareMessage (attr "data-message-author-role" "=" "user")) ∅).
    intros m _. reflexivity.
  - apply (candidates_without_text_node Grok (bareMessage ".user-message") ∅).
    intros m _. reflexivity.
Defined.

Example bare_message_grok :
  q_text <$> (getQuestions Grok (bareMessage ".user-message") ∅).1 = [js "hello there, world"].
Proof. vm_compute. reflexivity. Qed.

Lemma trimStart_spec (t : jsstring) :
  exists ws,
    t = ws ++ trimStart t /\ Forall (fun c => isWhiteSpace c = true) ws /\
    match trimStart t with
    | [] => True
    | c :: _ => isWhiteSpace c = false
    end.
Proof.
  induction t as [|c r (ws & Heq & Hws & Hhead)]; [by exists []|].
  cbn [trimStart]. destruct (isWhiteSpace c) eqn:Hc.
  - exists (c :: ws). split; [by rewrite Heq at 1|]. split; [by constructor | done].
  - by exists [].
Qed.

Lemma trimEnd_spec (t : jsstring) :
  exists ws,
    t = trimEnd t ++ ws /\ Forall (fun c => isWhiteSpace c = true) ws /\
    match reverse (trimEnd t) with
    | [] => True
    | c :: _ => isWhiteSpace c = false
    end.
Proof.
  unfold trimEnd. destruct (trimStart_spec (reverse t)) as (ws & Heq & Hws & Hhead).
  exists (reverse ws). split; [|split].
  - rewrite <- reverse_app, <- Heq. by rewrite reverse_involutive.
  - by apply Forall_reverse.
  - by rewrite reverse_involutive.
Qed.

Lemma trim_spec (t : jsstring) :
  exists before after,
    t = before ++ trim t ++ after /\
    Forall (fun c => isWhiteSpace c = true) before /\
    Forall (fun c => isWhiteSpace c = true) after /\
    match trim t with [] => True | c :: _ => isWhiteSpace c = false end /\
    match reverse (trim t) with [] => True | c :: _ => isWhiteSpace c = false end.
Proof.
  unfold trim. destruct (trimStart_spec t) as (before & Hb & Hbws & Hhead).
  destruct (trimEnd_spec (trimStart t)) as (after & Ha & Haws & Hlast).
  exists before, after. split; [by rewrite <- Ha|]. split; [done|]. split; [done|].
  split; [|done].
  destruct (trimEnd (trimStart t)) as [|c r] eqn:He; [done|].
  rewrite Ha in Hhead. exact Hhead.
Qed.

Lemma truncate_head (cap : nat) (c : N) (r : jsstring) :
  0 < cap -> exists rest, truncate cap (c :: r) = c :: rest.
Proof.
  intros Hcap. unfold truncate. destruct (cap <? length (c :: r)); [|by eexists].
  rewrite substring_from_start. destruct cap as [|cap]; [lia|]. by eexists.
Qed.

(** X9.  Text is trimmed before it is tested and stored.  The text of every
    returned Question comes from a node whose raw text is that text's source
    between two runs of whitespace; the source neither starts nor ends with
    whitespace, and the stored preview starts with the source's first,
    non-whitespace, code unit.  The same holds for the title of every Chat
    taken from a history entry. *)
Theorem previews_are_trimmed pf pg (ids : gmap node jsstring) :
  (forall q, q ∈ (getQuestions pf pg ids).1 ->
     exists el before T after c rest,
       textContent pg el = before ++ T ++ after /\
       Forall (fun u => isWhiteSpace u = true) before /\
       Forall (fun u => isWhiteSpace u = true) after /\
       q_text q = truncate 100 T /\
       T = c :: rest /\ isWhiteSpace c = false /\
       (exists rest', q_text q = c :: rest') /\
       match reverse T with [] => True | z :: _ => isWhiteSpace z = false end) /\
  (forall ch, ch ∈ historyChats pf pg ->
     exists el before T after c rest,
       textContent pg el = before ++ T ++ after /\
       Forall (fun u => isWhiteSpace u = true) before /\
       Forall (fun u => isWhiteSpace u = true) after /\
       c_title ch = storedTitle pf T /\
       T = c :: rest /\ isWhiteSpace c = false /\
       (exists rest', c_title ch = c :: rest') /\
       match reverse T with [] => True | z :: _ => isWhiteSpace z = false end).
Proof.
  split.
  - intros q (message & T & _ & Hacc & Heq)%getQuestions_source.
    apply accepted_Some in Hacc as (Hres & Hne & _).
    unfold resolvedText in Hres. destruct (textElement pf pg message) as [el|]; [|done].
    injection Hres as Hres.
    destruct (trim_spec (textContent pg el)) as (before & after & Htext & Hb & Ha & Hhead & Hlast).
    rewrite Hres in *. destruct T as [|c rest]; [done|].
    exists el, before, (c :: rest), after, c, rest.
    split; [done|]. split; [done|]. split; [done|]. split; [done|]. split; [done|].
    split; [done|]. split; [|done]. rewrite Heq. apply truncate_head. lia.
  - intros ch (index & item & T & _ & Hres & Hne & _ & ->)%historyChats_source.
    unfold resolvedTitle in Hres. destruct (titleElement pf pg item) as [el|]; [|done].
    injection Hres as Hres.
    destruct (trim_spec (textContent pg el)) as (before & after & Htext & Hb & Ha & Hhead & Hlast).
    rewrite Hres in *. destruct T as [|c rest]; [done|].
    exists el, before, (c :: rest), after, c, rest. cbn [c_title].
    split; [done|]. split; [done|]. split; [done|]. split; [done|]. split; [done|].
    split; [done|]. split; [|done].
    destruct pf; cbn [storedTitle]; try (by eexists); apply truncate_head; lia.
Qed.

Lemma previews_are_trimmed_witness :
  exists el before T after c rest,
    textContent (bareMessage ".user-message") el = before ++ T ++ after /\
    Forall (fun u => isWhiteSpace u = true) before /\
    Forall (fun u => isWhiteSpace u = true) after /\
    js "hello there, world" = truncate 100 T /\
    T = c :: rest /\ isWhiteSpace c = false /\
    (exists rest', js "hello there, world" = c :: rest') /\
    match reverse T with [] => True | z :: _ => isWhiteSpace z = false end.
Proof.
  apply (proj1 (previews_are_trimmed Grok (bareMessage ".user-message") ∅)
           {| q_id := js "grok-user-0"; q_text := js "hello there, world" |}).
  vm_compute. left.
Defined.

(** ** Filters on text *)

Lemma startsWith_spec (pat t : jsstring) :
  startsWith pat t = true <-> exists rest, t = pat ++ rest.
Proof.
  revert t. induction pat as [|p ps IH]; intros t; cbn [startsWith].
  - split; [by exists t | done].
  - destruct t as [|c cs]; [split; [done | by intros [? ?]]|].
    rewrite andb_true_iff, N.eqb_eq, IH. split.
    + intros [-> [rest ->]]. by exists rest.
    + intros [rest [= -> ->]]. split; [done | by exists rest].
Qed.

Lemma includes_spec (t pat : jsstring) :
  includes t pat = true <-> exists before after, t = before ++ pat ++ after.
Proof.
  induction t as [|c r IH].
  - change (includes [] pat) with (startsWith pat [] || false).
    rewrite orb_true_iff, startsWith_spec. split.
    + intros [[rest ->] | ?]; [by exists [], rest | done].
    + intros (before & after & H). left. symmetry in H.
      apply app_eq_nil in H as [-> H]. by exists after.
  - change (includes (c :: r) pat) with (startsWith pat (c :: r) || includes r pat).
    rewrite orb_true_iff, startsWith_spec, IH. split.
    + intros [[rest ->] | (before & after & ->)]; [by exists [], rest | by exists (c :: before), after].
    + intros ([|b before] & after & H).
      * left. by exists after.
      * right. injection H as -> ->. by exists before, after.
Qed.

(** X10.  On Gemini, Copilot and Meta the brand test is a containment
    test: when the history scan finds nothing and the heading's text
    contains the platform's brand name ("Gemini"; "Copilot" or "Bing";
    "Meta AI") anywhere, no Chat is synthesized, whatever else the heading
    says. *)
Theorem brand_anywhere_refused pf pg (sel brand : string) (el : node)
    (before after : jsstring) :
  historyChats pf pg = [] ->
  currentChatSelectors pf = [sel] -> querySelector pg sel = Some el ->
  brand ∈ brandNames pf ->
  textContent pg el = before ++ js brand ++ after ->
  getChats pf pg = [].
Proof.
  intros He Hsel Hq Hbrand Htext. rewrite (getChats_fallback pf pg He).
  assert (includes (textContent pg el) (js brand) = true) as Hinc
    by (apply includes_spec; by exists before, after).
  destruct pf; try discriminate Hsel; try (by apply elem_of_nil in Hbrand);
    injection Hsel as <-; unfold currentChat, headingChat; rewrite Hq;
    unfold brandNames in Hbrand.
  - apply list_elem_of_singleton in Hbrand as ->. rewrite Hinc.
    by rewrite andb_false_r.
  - apply elem_of_cons in Hbrand as [->|Hbrand].
    + rewrite Hinc. by rewrite andb_false_r.
    + apply list_elem_of_singleton in Hbrand as ->. rewrite Hinc.
      by rewrite orb_true_r, andb_false_r.
  - apply list_elem_of_singleton in Hbrand as ->. rewrite Hinc.
    by rewrite andb_false_r.
Qed.

Lemma brand_anywhere_refused_witness : getChats Gemini (brandHeading "My Gemini notes") = [].
Proof.
  apply (brand_anywhere_refused Gemini (brandHeading "My Gemini notes")
           ("h1, .conversation-title, .chat-title, " +:+ attr "class" "*=" "title")
           "Gemini" 7 (js "My ") (js " notes")).
  - reflexivity.
  - reflexivity.
  - reflexivity.
  - left.
  - reflexivity.
Defined.





(** ** Chat ids taken from the navigation target *)

Lemma takeWhile_spec (p : N -> bool) (t : jsstring) :
  Forall (fun c => p c = true) (takeWhile p t) /\
  exists rest, t = takeWhile p t ++ rest /\
               match rest with [] => True | c :: _ => p c = false end.
Proof.
  induction t as [|c r (Hall & rest & Heq & Hstop)]; cbn [takeWhile].
  - split; [constructor|]. by exists [].
  - destruct (p c) eqn:Hc.
    + split; [by constructor|]. exists rest. split; [by rewrite Heq at 1 | done].
    + split; [constructor|]. by exists (c :: r).
Qed.

Lemma matchHere_spec (lits : list jsstring) (stop : N -> bool) (t cap : jsstring) :
  matchHere lits stop t = Some cap ->
  cap <> [] /\ Forall (fun c => stop c = false) cap /\
  exists lit rest, lit ∈ lits /\ t = lit ++ cap ++ rest.
Proof.
  induction lits as [|lit more IH]; cbn [matchHere]; [done|].
  assert (matchHere more stop t = Some cap ->
          cap <> [] /\ Forall (fun c => stop c = false) cap /\
          exists lit0 rest, lit0 ∈ lit :: more /\ t = lit0 ++ cap ++ rest) as Hmore.
  { intros (H1 & H2 & l0 & rest & Hl0 & Ht)%IH. split; [done|]. split; [done|].
    exists l0, rest. split; [by right | done]. }
  destruct (startsWith lit t) eqn:Hstart; [|exact Hmore].
  apply startsWith_spec in Hstart as [tail ->].
  rewrite drop_app_length.
  destruct (takeWhile_spec (fun c => negb (stop c)) tail) as (Hall & rest & Heq & _).
  destruct (takeWhile (fun c => negb (stop c)) tail) as [|c cs] eqn:Htw; [exact Hmore|].
  intros [= <-]. split; [done|]. split.
  - eapply Forall_impl; [exact Hall|]. intros x Hx. by apply negb_true_iff in Hx.
  - exists lit, rest. split; [left|]. by rewrite Heq.
Qed.

Lemma reCapture_spec (lits : list jsstring) (stop : N -> bool) (t cap : jsstring) :
  reCapture lits stop t = Some cap ->
  cap <> [] /\ Forall (fun c => stop c = false) cap /\
  exists before lit rest, lit ∈ lits /\ t = before ++ lit ++ cap ++ rest.
Proof.
  induction t as [|c r IH]; cbn [reCapture].
  - destruct (matchHere lits stop []) as [cap'|] eqn:Hm; [|done].
    intros [= <-]. apply matchHere_spec in Hm as (H1 & H2 & lit & rest & Hlit & Ht).
    split; [done|]. split; [done|]. by exists [], lit, rest.
  - destruct (matchHere lits stop (c :: r)) as [cap'|] eqn:Hm.
    + intros [= <-]. apply matchHere_spec in Hm as (H1 & H2 & lit & rest & Hlit & Ht).
      split; [done|]. split; [done|]. by exists [], lit, rest.
    + intros (H1 & H2 & before & lit & rest & Hlit & ->)%IH.
      split; [done|]. split; [done|]. by exists (c :: before), lit, rest.
Qed.

Lemma hrefFragment_spec pf (h fragment : jsstring) :
  hrefFragment pf h = Some fragment ->
  fragment <> [] /\ (47%N ∉ fragment) /\ (pf <> ChatGPT -> 63%N ∉ fragment) /\
  exists before after, h = before ++ [47%N] ++ fragment ++ after.
Proof.
  assert (forall lits stop,
            (forall lit, lit ∈ lits -> exists body, lit = body ++ [47%N]) ->
            (forall c, stop c = false -> c <> 47%N) ->
            reCapture lits stop h = Some fragment ->
            fragment <> [] /\ Forall (fun c => stop c = false) fragment /\
            exists before after, h = before ++ [47%N] ++ fragment ++ after) as Hgen.
  { intros lits stop Hlits Hstop (H1 & H2 & before & lit & rest & Hlit & ->)%reCapture_spec.
    split; [done|]. split; [done|].
    destruct (Hlits lit Hlit) as [body ->]. exists (before ++ body), rest.
    by rewrite <- !app_assoc. }
  assert (forall c, isSlash c = false -> c <> 47%N) as Hslash.
  { intros c Hc ->. done. }
  assert (forall c, isSlashOrQuery c = false -> c <> 47%N /\ c <> 63%N) as Hsq.
  { intros c Hc. split; intros ->; done. }
  assert (forall lits : list string,
            Forall (fun s => exists body, js s = body ++ [47%N]) lits ->
            forall lit, lit ∈ js <$> lits -> exists body, lit = body ++ [47%N]) as Hends.
  { intros lits Hall lit (s & -> & Hs)%list_elem_of_fmap.
    rewrite Forall_forall in Hall. by apply Hall. }
  assert (forall fragment0 : jsstring,
            Forall (fun c => isSlashOrQuery c = false) fragment0 ->
            (47%N ∉ fragment0) /\ (63%N ∉ fragment0)) as Hfree.
  { intros f Hf. rewrite Forall_forall in Hf.
    split; intros Hin; apply Hf in Hin; done. }
  destruct pf; cbn [hrefFragment]; try done.
  - (* ChatGPT *)
    intros H. destruct (Hgen [js "/c/"] isSlash) as (H1 & H2 & H3); [| exact Hslash | exact H |].
    { intros lit ->%list_elem_of_singleton. by exists (js "/c"). }
    split; [done|]. split; [|split; [done | exact H3]].
    rewrite Forall_forall in H2. intros Hin. by apply H2 in Hin.
  - (* Perplexity *)
    intros H. destruct (Hgen (js <$> ["/search/"; "/thread/"]%string) isSlashOrQuery)
      as (H1 & H2 & H3); [| intros c Hc; by apply Hsq | exact H |].
    { apply Hends. repeat constructor; [by exists (js "/search") | by exists (js "/thread")]. }
    destruct (Hfree _ H2). done.
  - (* Claude *)
    intros H. destruct (Hgen (js <$> ["/chat/"]%string) isSlashOrQuery)
      as (H1 & H2 & H3); [| intros c Hc; by apply Hsq | exact H |].
    { apply Hends. repeat constructor. by exists (js "/chat"). }
    destruct (Hfree _ H2). done.
  - (* Gemini *)
    intros H. destruct (Hgen (js <$> ["/chat/"; "/app/"]%string) isSlashOrQuery)
      as (H1 & H2 & H3); [| intros c Hc; by apply Hsq | exact H |].
    { apply Hends. repeat constructor; [by exists (js "/chat") | by exists (js "/app")]. }
    destruct (Hfree _ H2). done.
  - (* Copilot *)
    intros H.
    destruct (Hgen (js <$> ["/chat/"; "/conversations/"; "/conversation/"]%string) isSlashOrQuery)
      as (H1 & H2 & H3); [| intros c Hc; by apply Hsq | exact H |].
    { apply Hends. repeat constructor;
        [by exists (js "/chat") | by exists (js "/conversations") | by exists (js "/conversation")]. }
    destruct (Hfree _ H2). done.
  - (* Meta *)
    intros H. destruct (Hgen (js <$> ["/chat/"; "/conversation/"]%string) isSlashOrQuery)
      as (H1 & H2 & H3); [| intros c Hc; by apply Hsq | exact H |].
    { apply Hends. repeat constructor; [by exists (js "/chat") | by exists (js "/conversation")]. }
    destruct (Hfree _ H2). done.
  - (* Grok *)
    intros H. destruct (Hgen (js <$> ["/chat/"; "/conversation/"]%string) isSlashOrQuery)
      as (H1 & H2 & H3); [| intros c Hc; by apply Hsq | exact H |].
    { apply Hends. repeat constructor; [by exists (js "/chat") | by exists (js "/conversation")]. }
    destruct (Hfree _ H2). done.
Qed.

(** X12.  The id of a Chat taken from a history entry is the platform's
    prefix followed either by a fragment of the entry's navigation target or
    by the entry's position.  A fragment is never empty, holds no slash
    (and, except on ChatGPT, no question mark), and stands in the target
    right after a slash; then the id does not depend on the position.  The
    position is used when the entry has no target, an empty one, or one the
    platform's path pattern does not match, and always on DeepSeek. *)
Theorem history_chat_ids pf pg (ch : Chat) :
  ch ∈ historyChats pf pg ->
  exists index item,
    chatItems pf pg !! index = Some item /\ c_url ch = itemHref pf pg item /\
    ((exists target fragment before after,
        itemHref pf pg item = Some target /\ pf <> DeepSeek /\
        c_id ch = js (chatIdPrefix pf) ++ fragment /\
        fragment <> [] /\ (47%N ∉ fragment) /\ (pf <> ChatGPT -> 63%N ∉ fragment) /\
        target = before ++ [47%N] ++ fragment ++ after /\
        forall other, chatId pf other (Some target) = c_id ch)
     \/ c_id ch = js (chatIdPrefix pf) ++ decimal index).
Proof.
  intros (index & item & title & Hl & _ & _ & _ & ->)%historyChats_source.
  exists index, item. split; [done|]. split; [done|]. cbn [c_id].
  unfold chatId. destruct (itemHref pf pg item) as [target|]; [|by right].
  destruct (truthy target) eqn:Ht; [|by right].
  destruct (hrefFragment pf target) as [fragment|] eqn:Hf; [|by right].
  left. destruct (hrefFragment_spec pf target fragment Hf) as (H1 & H2 & H3 & before & after & H4).
  exists target, fragment, before, after.
  split; [done|]. split; [by intros ->|]. split; [done|]. split; [done|]. split; [done|].
  split; [done|]. split; [done|]. intros other. by rewrite Ht, Hf.
Qed.

Lemma history_chat_ids_witness :
  exists index item,
    chatItems Claude claudeLongTitle !! index = Some item /\
    Some (js "https://claude.ai/chat/abc123?x=1") = itemHref Claude claudeLongTitle item /\
    ((exists target fragment before after,
        itemHref Claude claudeLongTitle item = Some target /\ Claude <> DeepSeek /\
        js "claude-chat-abc123" = js (chatIdPrefix Claude) ++ fragment /\
        fragment <> [] /\ (47%N ∉ fragment) /\ (Claude <> ChatGPT -> 63%N ∉ fragment) /\
        target = before ++ [47%N] ++ fragment ++ after /\
        forall other, chatId Claude other (Some target) = js "claude-chat-abc123")
     \/ js "claude-chat-abc123" = js (chatIdPrefix Claude) ++ decimal index).
Proof.
  apply (history_chat_ids Claude claudeLongTitle
           {| c_id := js "claude-chat-abc123"; c_title := textOfLength 50 ++ marker;
              c_url := Some (js "https://claude.ai/chat/abc123?x=1") |}).
  vm_compute. left.
Defined.

(** * Further properties of the controller *)

Lemma escapeString_app (a b : jsstring) :
  escapeString (a ++ b) = escapeString a ++ escapeString b.
Proof. unfold escapeString. by rewrite fmap_app, concat_app. Qed.

Lemma escapeUnit_length (c : N) : 1 <= length (escapeUnit c).
Proof.
  destruct (escapeUnit_cases c) as [[_ ->] | [[_ ->] | [[_ ->] | [[_ ->] | (_ & _ & _ & ->)]]]];
    simpl; lia.
Qed.

(** X13.  [escapeHtml] works unit by unit: it distributes over
    concatenation, never shortens a text, leaves a text without [&], [<],
    [>] and no-break space exactly as it is, and maps different texts to
    different markup. *)
Theorem escapeHtml_unitwise (a b : jsstring) :
  escapeHtml (a ++ b) = escapeHtml a ++ escapeHtml b /\
  length a <= length (escapeHtml a) /\
  (Forall (fun c => c <> 38%N /\ c <> 160%N /\ c <> 60%N /\ c <> 62%N) a -> escapeHtml a = a) /\
  (escapeHtml a = escapeHtml b -> a = b).
Proof.
  rewrite !escapeHtml_escapeString. split; [apply escapeString_app|]. split; [|split].
  - induction a as [|c r IH]; [done|]. rewrite escapeString_cons, length_app.
    pose proof (escapeUnit_length c). simpl. lia.
  - induction 1 as [|c r (H1 & H2 & H3 & H4) _ IH]; [done|].
    rewrite escapeString_cons, IH. unfold escapeUnit.
    destruct (N.eqb_spec c 38); [done|]. destruct (N.eqb_spec c 160); [done|].
    destruct (N.eqb_spec c 60); [done|]. by destruct (N.eqb_spec c 62).
  - intros Heq. pose proof (asCharacterData_escapeHtml a) as Ha.
    pose proof (asCharacterData_escapeHtml b) as Hb.
    rewrite !escapeHtml_escapeString in Ha, Hb. rewrite Heq in Ha. congruence.
Qed.

Lemma escapeHtml_unitwise_witness :
  escapeHtml (js "plain text, 100% safe") = js "plain text, 100% safe" /\
  (escapeHtml (js "a<b") = escapeHtml (js "a<b") -> js "a<b" = js "a<b").
Proof.
  split.
  - apply (proj1 (proj2 (proj2 (escapeHtml_unitwise (js "plain text, 100% safe") [])))).
    vm_compute. repeat (constructor; [repeat split; discriminate|]). constructor.
  - apply (proj2 (proj2 (proj2 (escapeHtml_unitwise (js "a<b") (js "a<b"))))).
Defined.

Lemma rendered_rows_start_with_newline {A : Type} (id text : A -> jsstring) (x : A) (l : list A) :
  exists rest,
    concat ((fun item => navItem (id item) (escapeHtml (text item))) <$> (x :: l)) = 10%N :: rest.
Proof. cbn [fmap list_fmap concat]. unfold navItem. by eexists. Qed.

(** X14.  After a content refresh a panel shows its placeholder row exactly
    when the parser returned nothing for it: "No questions found" if and
    only if no Question was extracted, "No chats found" if and only if no
    Chat was. *)
Theorem placeholder_iff_empty (w : World) :
  (questionsContent (container (updateContent w).2) = emptyState "No questions found"
   <-> (getQuestions (parser w.2) (page w.1) (ids w.1)).1 = []) /\
  (chatsContent (container (updateContent w).2) = emptyState "No chats found"
   <-> getChats (parser w.2) (page w.1) = []).
Proof.
  destruct (updateContent_lists w) as (Hq & Hc & Hqc & Hcc).
  rewrite Hqc, Hcc, Hq, Hc. split.
  - destruct (getQuestions (parser w.2) (page w.1) (ids w.1)).1 as [|q qs]; [done|].
    unfold renderQuestions. change (length (q :: qs) =? 0) with false. cbv iota.
    destruct (rendered_rows_start_with_newline q_id q_text q qs) as [rest ->].
    split; [|done]. intros H. vm_compute in H. discriminate.
  - destruct (getChats (parser w.2) (page w.1)) as [|c cs]; [done|].
    unfold renderChats. change (length (c :: cs) =? 0) with false. cbv iota.
    destruct (rendered_rows_start_with_newline c_id c_title c cs) as [rest ->].
    split; [|done]. intros H. vm_compute in H. discriminate.
Qed.



(** ** Highlighting *)

Lemma fire_style_done (tm : Timer) (w : World) (el : node) :
  styleBackgroundColor w.1 !! el = Some [] ->
  styleBackgroundColor (fire tm w).1 !! el = Some [].
Proof.
  intros Hdone. unfold fire. destruct (task tm) as [|e]; cbn [runTask].
  - rewrite updateContent_host. exact Hdone.
  - cbn [fst set_style styleBackgroundColor]. rewrite lookup_insert.
    by destruct (decide (e = el)).
Qed.

Lemma fireDue_unhighlights (fuel : nat) (t : Z) (w : World) (el : node) :
  length (timers w.1) <= fuel ->
  styleBackgroundColor w.1 !! el = Some [] \/
  Exists (fun tm => task tm = Unhighlight el /\ (due tm <= t)%Z /\
                    Forall (fun x => handle x = handle tm -> task x = Unhighlight el)
                           (timers w.1))
         (timers w.1) ->
  styleBackgroundColor (fireDue fuel t w).1.1 !! el = Some [].
Proof.
  revert w. induction fuel as [|fuel IH]; intros w Hfuel Hstate; cbn [fireDue].
  - destruct Hstate as [Hdone | Hex]; [done|].
    apply Exists_exists in Hex as (tm & Hin & _).
    destruct (timers w.1); [by apply elem_of_nil in Hin | simpl in Hfuel; lia].
  - destruct (nextDue t (timers w.1)) as [x|] eqn:Hnext.
    + apply nextDue_Some in Hnext as (Hx & _ & _).
      pose proof (fire_fewer x w Hx) as Hfewer.
      specialize (IH (fire x w) ltac:(lia)).
      destruct (fireDue fuel t (fire x w)) as [w2 tr]. cbn [fst] in *. apply IH.
      destruct Hstate as [Hdone | Hex]; [left; by apply fire_style_done|].
      apply Exists_exists in Hex as (tm & Hin & Htask & Hdue & Hsame).
      destruct (decide (handle x = handle tm)) as [Heq|Hne].
      * left. rewrite Forall_forall in Hsame. pose proof (Hsame x Hx Heq) as Hxt.
        unfold fire. rewrite Hxt. cbn [runTask fst set_style styleBackgroundColor].
        apply lookup_insert_eq.
      * right. destruct (fire_host x w) as (-> & _). apply Exists_exists. exists tm.
        split; [|split; [done|split; [done|]]].
        -- apply list_elem_of_In, filter_In. split; [by apply list_elem_of_In|].
           apply negb_true_iff, Nat.eqb_neq. congruence.
        -- by apply Forall_List_filter.
    + destruct Hstate as [Hdone | Hex]; [done|].
      apply Exists_exists in Hex as (tm & Hin & _ & Hdue & _).
      pose proof (nextDue_None t _ Hnext tm Hin). lia.
Qed.

(** X16.  The highlight is transient.  When the id a row carries names an
    element, selecting the row scrolls to that element, gives it the
    highlight colour and closes the panels; and once 2000ms have passed
    with no further event, the element's background colour is the empty
    string again, whatever other timers were pending. *)
Theorem highlight_is_transient (eid : jsstring) (h : Host) (ui : ChatNavigatorUI)
    (el : node) (t : Z) :
  handlesFresh h -> getElementById h eid = Some el -> (now h + 2000 <= t)%Z ->
  scrolledIntoView (dispatch (RowClick eid) (h, ui)).1 = scrolledIntoView h ++ [el] /\
  styleBackgroundColor (dispatch (RowClick eid) (h, ui)).1 !! el
  = Some (js "rgba(59, 130, 246, 0.1)") /\
  bothClosed (dispatch (RowClick eid) (h, ui)).2 /\
  styleBackgroundColor (advanceTo t (dispatch (RowClick eid) (h, ui))).1.1 !! el = Some [].
Proof.
  intros Hfresh Hget Ht.
  assert (dispatch (RowClick eid) (h, ui) = (scrollAndHighlight el h, closeAllPanels ui)) as ->.
  { unfold dispatch, rowClick, scrollToElement. by rewrite Hget. }
  cbn [fst snd]. split; [done|]. split; [apply lookup_insert_eq|]. split; [done|].
  unfold advanceTo.
  pose proof (fireDue_unhighlights (length (timers (scrollAndHighlight el h))) t
                (scrollAndHighlight el h, closeAllPanels ui) el (le_n _)) as Hfire.
  destruct (fireDue _ t (scrollAndHighlight el h, closeAllPanels ui)) as [w' tr].
  cbn [fst snd set_now styleBackgroundColor] in *. apply Hfire. right.
  unfold scrollAndHighlight, setTimeout.
  cbn [snd set_timers timers set_style set_scrolledIntoView now nextHandle].
  apply Exists_app. right. constructor. cbn [task due handle].
  split; [done|]. split; [lia|].
  apply Forall_app. split.
  - unfold handlesFresh in Hfresh. eapply Forall_impl; [exact Hfresh|].
    intros x Hx Heq. cbn [handle nextHandle set_style set_scrolledIntoView] in *. exfalso. lia.
  - by constructor.
Qed.

Lemma highlight_is_transient_witness :
  scrolledIntoView (dispatch (RowClick (js "grok-user-2")) questionsOpen).1
  = scrolledIntoView questionsOpen.1 ++ [2] /\
  styleBackgroundColor (dispatch (RowClick (js "grok-user-2")) questionsOpen).1 !! 2
  = Some (js "rgba(59, 130, 246, 0.1)") /\
  bothClosed (dispatch (RowClick (js "grok-user-2")) questionsOpen).2 /\
  styleBackgroundColor
    (advanceTo 2010 (dispatch (RowClick (js "grok-user-2")) questionsOpen)).1.1 !! 2
  = Some [].
Proof.
  apply (highlight_is_transient (js "grok-user-2") questionsOpen.1 questionsOpen.2 2 2010).
  - vm_compute. constructor.
  - vm_compute. reflexivity.
  - vm_compute. discriminate.
Defined.

(** Two selections of the same row 1500ms apart: the reset timer of the
    first ends the highlight of the second after 500ms. *)
Example earlier_reset_ends_later_highlight :
  (fun w => (styleBackgroundColor w.1 !! 2, due <$> timers w.1))
    (advanceTo 2100
       (run [(100%Z, RowClick (js "grok-user-2")); (1600%Z, RowClick (js "grok-user-2"))]
            questionsOpen).1).1
  = (Some [], [3600%Z]).
Proof. vm_compute. reflexivity. Qed.

(** ** The debounce over any sequence of notifications *)








(** ** Timers along a run *)

Lemma onMutation_host (w : World) :
  timers (onMutation w).1
  = timers (clearTimeout (updateTimeout w.2) w.1)
    ++ [ {| handle := nextHandle w.1; due := (now w.1 + 500)%Z; task := Refresh |} ] /\
  nextHandle (onMutation w).1 = S (nextHandle w.1) /\
  updateTimeout (onMutation w).2 = Some (nextHandle w.1) /\
  styleBackgroundColor (onMutation w).1 = styleBackgroundColor w.1.
Proof.
  destruct w as [h ui]. unfold onMutation, setTimeout. cbn [fst snd].
  destruct (updateTimeout ui); repeat split; reflexivity.
Qed.

Lemma clearTimeout_timers (o : option nat) (h : Host) :
  timers (clearTimeout o h)
  = match o with
    | Some k => List.filter (fun t => negb (handle t =? k)) (timers h)
    | None => timers h
    end.
Proof. by destruct o. Qed.

Lemma timersTidy_ui (h : Host) (ui ui' : ChatNavigatorUI) :
  updateTimeout ui' = updateTimeout ui -> timersTidy (h, ui) -> timersTidy (h, ui').
Proof. unfold timersTidy. cbn [fst snd]. by intros ->. Qed.

Lemma timersTidy_highlight (el : node) (h : Host) (ui : ChatNavigatorUI) :
  timersTidy (h, ui) -> timersTidy (scrollAndHighlight el h, ui).
Proof.
  intros (Hfresh & Hname & Hall). unfold timersTidy, handlesFresh in *.
  unfold scrollAndHighlight, setTimeout.
  cbn [fst snd set_timers timers nextHandle set_style set_scrolledIntoView now] in *.
  split; [|split].
  - apply Forall_app. split; [|constructor; [cbn; lia | constructor]].
    eapply Forall_impl; [exact Hfresh|]. intros tm ?. cbn in *. lia.
  - intros k Hk. destruct (Hname k Hk) as [Hlt Hk']. split; [lia|].
    apply Forall_app. split; [done|]. constructor; [|constructor].
    cbn [handle task]. intros Heq. lia.
  - apply Forall_app. split; [done|]. constructor; [|constructor]. done.
Qed.

Lemma togglePanel_updateTimeout (type : Kind) (ui : ChatNavigatorUI) :
  updateTimeout (togglePanel type ui) = updateTimeout ui.
Proof. unfold togglePanel. by destruct (isActivePanel ui type). Qed.

Lemma dispatch_tidy (e : Event) (w : World) :
  timersTidy w -> timersTidy (dispatch e w).
Proof.
  intros Htidy. destruct w as [h ui].
  destruct e as [type | eid | | key |]; cbn [dispatch documentClick negb fst snd].
  - eapply timersTidy_ui; [|exact Htidy]. apply togglePanel_updateTimeout.
  - unfold rowClick, scrollToElement.
    destruct (getElementById h eid) as [el|]; cbn [stateOf].
    + eapply timersTidy_ui; [|by apply timersTidy_highlight]. done.
    + destruct (querySelectorRuntime h (dataIdSelector eid)) as [[el|]|]; cbn [stateOf].
      * eapply timersTidy_ui; [|by apply timersTidy_highlight]. done.
      * by eapply timersTidy_ui; [|exact Htidy].
      * done.
  - by eapply timersTidy_ui; [|exact Htidy].
  - unfold documentKeyDown. destruct (bool_decide (key = js "Escape")); [|done].
    by eapply timersTidy_ui; [|exact Htidy].
  - destruct Htidy as (Hfresh & Hname & Hall).
    destruct (onMutation_host (h, ui)) as (Ht & Hn & Hu & _).
    unfold timersTidy, handlesFresh in *. rewrite Ht, Hn, Hu.
    cbn [fst snd] in *. rewrite clearTimeout_timers.
    assert (Forall (fun tm => isRefresh (task tm) = false)
                   (match updateTimeout ui with
                    | Some k => List.filter (fun t => negb (handle t =? k)) (timers h)
                    | None => timers h
                    end)) as Hnone.
    { destruct (updateTimeout ui) as [k|] eqn:Hk.
      - apply Forall_forall. intros tm Hin.
        apply list_elem_of_In, filter_In in Hin as [Hin Hneq].
        apply list_elem_of_In in Hin. rewrite Forall_forall in Hall.
        destruct (isRefresh (task tm)) eqn:Hr; [|done].
        specialize (Hall tm Hin Hr). injection Hall as ->.
        by rewrite Nat.eqb_refl in Hneq.
      - eapply Forall_impl; [exact Hall|]. intros tm Himp. cbv beta in Himp.
        destruct (isRefresh (task tm)); [by specialize (Himp eq_refl)|done]. }
    assert (Forall (fun tm => handle tm < nextHandle h)
                   (match updateTimeout ui with
                    | Some k => List.filter (fun t => negb (handle t =? k)) (timers h)
                    | None => timers h
                    end)) as Hbelow.
    { destruct (updateTimeout ui); [by apply Forall_List_filter|done]. }
    split; [|split].
    + apply Forall_app. split; [|constructor; [cbn; lia|constructor]].
      eapply Forall_impl; [exact Hbelow|]. intros tm ?. cbn in *. lia.
    + intros k [= <-]. split; [lia|]. apply Forall_app. split; [|by repeat constructor].
      eapply Forall_impl; [exact Hbelow|]. intros tm ? ?. cbn in *. lia.
    + apply Forall_app. split; [|by repeat constructor].
      eapply Forall_impl; [exact Hnone|]. intros tm ? ?. cbn in *. congruence.
Qed.

Lemma fire_tidy (tm : Timer) (w : World) :
  timersTidy w -> timersTidy (fire tm w).
Proof.
  intros (Hfresh & Hname & Hall). destruct (fire_host tm w) as (Ht & Hn & _ & Hu).
  unfold timersTidy, handlesFresh in *. rewrite Ht, Hn, Hu.
  split; [by apply Forall_List_filter|]. split; [|by apply Forall_List_filter].
  intros k Hk. destruct (Hname k Hk) as [Hlt Hk']. split; [done|].
  by apply Forall_List_filter.
Qed.

Lemma fireDue_tidy (fuel : nat) (t : Z) (w : World) :
  timersTidy w -> timersTidy (fireDue fuel t w).1.
Proof.
  revert w. induction fuel as [|fuel IH]; intros w Htidy; cbn [fireDue]; [done|].
  destruct (nextDue t (timers w.1)) as [tm|]; [|done].
  specialize (IH _ (fire_tidy tm w Htidy)). by destruct (fireDue fuel t (fire tm w)).
Qed.

Lemma advanceTo_tidy (t : Z) (w : World) :
  timersTidy w -> timersTidy (advanceTo t w).1.
Proof.
  intros Htidy. unfold advanceTo.
  pose proof (fireDue_tidy (length (timers w.1)) t w Htidy) as H.
  by destruct (fireDue (length (timers w.1)) t w) as [w' tr].
Qed.

Lemma run_tidy (timeline : list (Z * Event)) (w : World) :
  timersTidy w -> timersTidy (run timeline w).1.
Proof.
  revert w. induction timeline as [|[t e] rest IH]; intros w Htidy; cbn [run]; [done|].
  pose proof (advanceTo_tidy t w Htidy) as H1.
  destruct (advanceTo t w) as [w1 tr1]. cbn [fst] in H1.
  specialize (IH _ (dispatch_tidy e w1 H1)).
  by destruct (run rest (dispatch e w1)) as [w2 tr2].
Qed.

Lemma newChatNavigatorUI_tidy (pf : Platform) (h : Host) :
  handlesFresh h -> Forall (fun tm => isRefresh (task tm) = false) (timers h) ->
  timersTidy (newChatNavigatorUI pf h).
Proof.
  intros Hfresh Hnone. unfold newChatNavigatorUI.
  destruct (runTask_host Refresh
              (h, {| parser := pf; container := createUI; activePanel := None;
                     questions := []; chats := []; updateTimeout := None |}))
    as (Ht & Hn & _ & Hu).
  cbn [runTask fst snd] in *. unfold timersTidy, handlesFresh. rewrite Ht, Hn, Hu.
  split; [done|]. split; [done|].
  eapply Forall_impl; [exact Hnone|]. intros tm -> ?. done.
Qed.

(** X18.  A change notification cancels pending refreshes and nothing else.
    In any state the controller reaches from its construction on a host
    with no refresh pending, whatever events and timers came before, the
    observer callback leaves every pending highlight reset in place, in
    order, removes every pending refresh, and adds one refresh due 500ms
    from now under a handle no pending timer carries. *)
Theorem notification_cancels_only_refreshes (pf : Platform) (h : Host)
    (timeline : list (Z * Event)) :
  handlesFresh h -> Forall (fun tm => isRefresh (task tm) = false) (timers h) ->
  timers (dispatch Mutation (run timeline (newChatNavigatorUI pf h)).1).1
  = List.filter (fun tm => negb (isRefresh (task tm)))
                (timers (run timeline (newChatNavigatorUI pf h)).1.1)
    ++ [ {| handle := nextHandle (run timeline (newChatNavigatorUI pf h)).1.1;
            due := (now (run timeline (newChatNavigatorUI pf h)).1.1 + 500)%Z;
            task := Refresh |} ] /\
  Forall (fun tm => handle tm < nextHandle (run timeline (newChatNavigatorUI pf h)).1.1)
         (timers (run timeline (newChatNavigatorUI pf h)).1.1).
Proof.
  intros Hfresh Hnone.
  pose proof (run_tidy timeline _ (newChatNavigatorUI_tidy pf h Hfresh Hnone)) as Htidy.
  destruct (run timeline (newChatNavigatorUI pf h)) as [w tr]. cbn [fst] in *.
  destruct Htidy as (Hf & Hname & Hall). split; [|exact Hf].
  cbn [dispatch]. destruct (onMutation_host w) as (-> & _). f_equal.
  rewrite clearTimeout_timers. destruct (updateTimeout w.2) as [k|] eqn:Hk.
  - destruct (Hname k eq_refl) as [_ Hk']. apply List.filter_ext_in. intros tm Hin.
    apply list_elem_of_In in Hin. rewrite Forall_forall in Hk', Hall.
    specialize (Hk' tm Hin). specialize (Hall tm Hin). cbv beta in Hk', Hall. f_equal.
    destruct (Nat.eqb_spec (handle tm) k) as [Heq|Hne].
    + by rewrite (Hk' Heq).
    + destruct (isRefresh (task tm)); [|done]. specialize (Hall eq_refl). congruence.
  - symmetry. apply List.forallb_filter_id. apply forallb_forall. intros tm Hin.
    apply list_elem_of_In in Hin. rewrite Forall_forall in Hall. specialize (Hall tm Hin).
    cbv beta in Hall. destruct (isRefresh (task tm)); [by specialize (Hall eq_refl)|done].
Qed.

Lemma notification_cancels_only_refreshes_witness :
  timers (dispatch Mutation
            (run [(10%Z, ButtonClick Questions); (20%Z, RowClick (js "grok-user-2"));
                  (30%Z, Mutation)]
                 (newChatNavigatorUI Grok (hostOf scenarioA ∅ [0; 1; 2]))).1).1
  = [ {| handle := 0; due := 2020%Z; task := Unhighlight 2 |};
      {| handle := 2; due := 530%Z; task := Refresh |} ].
Proof.
  apply (proj1 (notification_cancels_only_refreshes Grok (hostOf scenarioA ∅ [0; 1; 2])
                  [(10%Z, ButtonClick Questions); (20%Z, RowClick (js "grok-user-2"));
                   (30%Z, Mutation)]
                  ltac:(vm_compute; constructor) ltac:(vm_compute; constructor))).
Defined.

Lemma fire_resetPending (el : node) (horizon : Z) (x : Timer) (w : World) :
  x ∈ timers w.1 -> resetPending el horizon w -> resetPending el horizon (fire x w).
Proof.
  intros Hx [Hdone | Hex]; [left; by apply fire_style_done|].
  apply Exists_exists in Hex as (tm & Hin & Htask & Hdue & Hsame).
  destruct (decide (handle x = handle tm)) as [Heq|Hne].
  - left. rewrite Forall_forall in Hsame. pose proof (Hsame x Hx Heq) as Hxt.
    unfold fire. rewrite Hxt. cbn [runTask fst set_style styleBackgroundColor].
    apply lookup_insert_eq.
  - right. destruct (fire_host x w) as (-> & _). apply Exists_exists. exists tm.
    split; [|split; [done|split; [done|]]].
    + apply list_elem_of_In, filter_In. split; [by apply list_elem_of_In|].
      apply negb_true_iff, Nat.eqb_neq. congruence.
    + by apply Forall_List_filter.
Qed.

Lemma fireDue_resetPending (el : node) (horizon : Z) (fuel : nat) (t : Z) (w : World) :
  resetPending el horizon w -> resetPending el horizon (fireDue fuel t w).1.
Proof.
  revert w. induction fuel as [|fuel IH]; intros w Hp; cbn [fireDue]; [done|].
  destruct (nextDue t (timers w.1)) as [x|] eqn:Hnext; [|done].
  apply nextDue_Some in Hnext as (Hx & _).
  specialize (IH _ (fire_resetPending el horizon x w Hx Hp)).
  by destruct (fireDue fuel t (fire x w)).
Qed.

Lemma advanceTo_resetPending (el : node) (horizon t : Z) (w : World) :
  resetPending el horizon w -> resetPending el horizon (advanceTo t w).1.
Proof.
  intros Hp. unfold advanceTo.
  pose proof (fireDue_resetPending el horizon (length (timers w.1)) t w Hp) as H.
  by destruct (fireDue (length (timers w.1)) t w) as [w' tr].
Qed.

Lemma dispatch_resetPending (el : node) (horizon : Z) (e : Event) (w : World) :
  timersTidy w -> selects e = false ->
  resetPending el horizon w -> resetPending el horizon (dispatch e w).
Proof.
  intros (Hfresh & Hname & _) He Hp. destruct w as [h ui].
  destruct e as [type | eid | | key |]; try discriminate;
    cbn [dispatch documentClick negb fst snd]; try exact Hp.
  - unfold documentKeyDown. by destruct (bool_decide (key = js "Escape")).
  - destruct (onMutation_host (h, ui)) as (Ht & _ & _ & Hs).
    unfold resetPending in *. rewrite Ht, Hs. cbn [fst snd] in *.
    destruct Hp as [Hdone | Hex]; [by left | right].
    apply Exists_exists in Hex as (tm & Hin & Htask & Hdue & Hsame).
    rewrite clearTimeout_timers.
    assert (handle tm < nextHandle h) as Hlt.
    { unfold handlesFresh in Hfresh. rewrite Forall_forall in Hfresh. by apply Hfresh. }
    apply Exists_app. left. apply Exists_exists. exists tm.
    split; [|split; [done|split; [done|]]].
    + destruct (updateTimeout ui) as [k|] eqn:Hk; [|done].
      apply list_elem_of_In, filter_In. split; [by apply list_elem_of_In|].
      apply negb_true_iff, Nat.eqb_neq. intros Heq.
      destruct (Hname k eq_refl) as [_ Hk']. rewrite Forall_forall in Hk'.
      specialize (Hk' tm Hin Heq). by rewrite Htask in Hk'.
    + apply Forall_app. split.
      * destruct (updateTimeout ui); [by apply Forall_List_filter|done].
      * constructor; [|constructor]. cbn [handle]. intros Heq. lia.
Qed.

Lemma run_resetPending (el : node) (horizon : Z) (timeline : list (Z * Event)) (w : World) :
  timersTidy w -> Forall (fun te => selects te.2 = false) timeline ->
  resetPending el horizon w ->
  timersTidy (run timeline w).1 /\ resetPending el horizon (run timeline w).1.
Proof.
  revert w. induction timeline as [|[t e] rest IH]; intros w Htidy Hnone Hp; cbn [run]; [done|].
  apply Forall_cons in Hnone as [He Hnone]. cbn [snd] in He.
  pose proof (advanceTo_tidy t w Htidy) as H1.
  pose proof (advanceTo_resetPending el horizon t w Hp) as H2.
  destruct (advanceTo t w) as [w1 tr1]. cbn [fst] in H1, H2.
  specialize (IH _ (dispatch_tidy e w1 H1) Hnone
                 (dispatch_resetPending el horizon e w1 H1 He H2)).
  by destruct (run rest (dispatch e w1)) as [w2 tr2].
Qed.

(** X19.  The highlight ends on time whatever else goes on.  Take any state
    the controller reaches from its construction on a host with no refresh
    pending, and select a row whose id names an element.  Whatever button
    clicks, outside clicks, key presses and change notifications follow, at
    whatever times, as long as no further row is selected, the element's
    background colour is the empty string again once 2000ms have passed
    since the selection: no refresh and no cancelled refresh takes the
    reset away. *)
Theorem highlight_outlives_activity (pf : Platform) (h : Host)
    (before after : list (Z * Event)) (eid : jsstring) (el : node) (horizon : Z) :
  handlesFresh h -> Forall (fun tm => isRefresh (task tm) = false) (timers h) ->
  getElementById (run before (newChatNavigatorUI pf h)).1.1 eid = Some el ->
  Forall (fun te => selects te.2 = false) after ->
  (now (run before (newChatNavigatorUI pf h)).1.1 + 2000 <= horizon)%Z ->
  styleBackgroundColor
    (runUntil horizon after
       (dispatch (RowClick eid) (run before (newChatNavigatorUI pf h)).1)).1.1 !! el
  = Some [].
Proof.
  intros Hfresh Hnone Hget Hafter Hh.
  pose proof (run_tidy before _ (newChatNavigatorUI_tidy pf h Hfresh Hnone)) as Htidy.
  destruct (run before (newChatNavigatorUI pf h)) as [[h0 ui0] tr0]. cbn [fst] in *.
  pose proof (dispatch_tidy (RowClick eid) _ Htidy) as Htidy'.
  assert (resetPending el horizon (dispatch (RowClick eid) (h0, ui0))) as Hp.
  { destruct Htidy as (Hf & _). unfold handlesFresh in Hf. cbn [fst] in Hf.
    unfold dispatch, rowClick, scrollToElement. rewrite Hget.
    cbn [stateOf documentClick negb]. right. cbn [fst].
    unfold scrollAndHighlight, setTimeout.
    cbn [snd set_timers timers set_style set_scrolledIntoView now nextHandle].
    apply Exists_app. right. constructor. cbn [task due handle].
    split; [done|]. split; [lia|]. apply Forall_app. split; [|by constructor].
    eapply Forall_impl; [exact Hf|]. intros x Hx Heq.
    cbn [handle nextHandle set_style set_scrolledIntoView] in *. exfalso. lia. }
  destruct (run_resetPending el horizon after _ Htidy' Hafter Hp) as [_ Hp'].
  unfold runUntil. cbn [fst].
  destruct (run after (dispatch (RowClick eid) (h0, ui0))) as [w1 tr1]. cbn [fst] in *.
  unfold advanceTo.
  pose proof (fireDue_unhighlights (length (timers w1.1)) horizon w1 el (le_n _) Hp') as Hfire.
  by destruct (fireDue (length (timers w1.1)) horizon w1) as [w' tr].
Qed.

Lemma highlight_outlives_activity_witness :
  styleBackgroundColor
    (runUntil 2010
       [(100%Z, Mutation); (300%Z, ButtonClick Chats); (1900%Z, Mutation);
        (2005%Z, KeyDown (js "Escape"))]
       (dispatch (RowClick (js "grok-user-2"))
          (run [(10%Z, ButtonClick Questions)]
               (newChatNavigatorUI Grok (hostOf scenarioA ∅ [0; 1; 2]))).1)).1.1 !! 2
  = Some [].
Proof.
  apply (highlight_outlives_activity Grok (hostOf scenarioA ∅ [0; 1; 2])
           [(10%Z, ButtonClick Questions)]
           [(100%Z, Mutation); (300%Z, ButtonClick Chats); (1900%Z, Mutation);
            (2005%Z, KeyDown (js "Escape"))]
           (js "grok-user-2") 2 2010).
  - vm_compute. constructor.
  - vm_compute. constructor.
  - vm_compute. reflexivity.
  - repeat constructor.
  - vm_compute. discriminate.
Defined.

(** ** Chat rows *)

Lemma find_nowhere {A : Type} (f : A -> bool) (l : list A) :
  (forall x, In x l -> f x = false) -> List.find f l = None.
Proof.
  induction l as [|a l IH]; intros Hall; [done|]. cbn [List.find].
  rewrite (Hall a (or_introl eq_refl)). apply IH. intros x Hx. apply Hall. by right.
Qed.

Lemma prefix_clash (a b x y : jsstring) (i : nat) (u v : N) :
  a !! i = Some u -> b !! i = Some v -> u <> v -> a ++ x <> b ++ y.
Proof.
  intros Ha Hb Huv Heq. apply (f_equal (fun l => l !! i)) in Heq.
  rewrite (lookup_app_l_Some _ _ _ _ Ha), (lookup_app_l_Some _ _ _ _ Hb) in Heq.
  congruence.
Qed.

Lemma chat_id_shape pf pg (c : Chat) :
  c ∈ getChats pf pg ->
  (exists rest, c_id c = js (chatIdPrefix pf) ++ rest) \/
  (c_id c = js (currentChatId pf) /\ pf <> DeepSeek).
Proof.
  intros Hin.
  assert (c ∈ historyChats pf pg \/ c ∈ currentChat pf pg) as [Hh|Hc].
  { unfold getChats in Hin. destruct (length (historyChats pf pg) =? 0); [|by left].
    by apply elem_of_app in Hin. }
  - left. apply historyChats_source in Hh as (index & item & title & _ & _ & _ & _ & ->).
    cbn [c_id]. unfold chatId.
    destruct (itemHref pf pg item) as [t|]; [|by eexists].
    destruct (truthy t); [|by eexists]. destruct (hrefFragment pf t); by eexists.
  - right. split; [by apply (currentChat_source pf pg c)|].
    intros ->. by apply elem_of_nil in Hc.
Qed.

Lemma question_id_not_chat_id pf pg (c : Chat) (index : nat) :
  c ∈ getChats pf pg -> syntheticId pf index <> c_id c.
Proof.
  intros [[rest ->] | [-> Hpf]]%chat_id_shape; unfold syntheticId.
  - destruct pf;
      [ apply (prefix_clash _ _ _ _ 4 103%N 45%N)
      | apply (prefix_clash _ _ _ _ 11 113%N 116%N)
      | apply (prefix_clash _ _ _ _ 7 117%N 99%N)
      | apply (prefix_clash _ _ _ _ 7 117%N 99%N)
      | apply (prefix_clash _ _ _ _ 9 117%N 99%N)
      | apply (prefix_clash _ _ _ _ 8 117%N 99%N)
      | apply (prefix_clash _ _ _ _ 5 117%N 99%N)
      | apply (prefix_clash _ _ _ _ 5 117%N 99%N) ];
      done.
  - rewrite <- (app_nil_r (js (currentChatId pf))).
    destruct pf;
      [ apply (prefix_clash _ _ _ _ 1 104%N 117%N)
      | apply (prefix_clash _ _ _ _ 11 113%N 99%N)
      | apply (prefix_clash _ _ _ _ 7 117%N 99%N)
      | apply (prefix_clash _ _ _ _ 7 117%N 99%N)
      | done
      | apply (prefix_clash _ _ _ _ 8 117%N 99%N)
      | apply (prefix_clash _ _ _ _ 5 117%N 99%N)
      | apply (prefix_clash _ _ _ _ 5 117%N 99%N) ];
      done.
Qed.

Lemma stampId_writes pf (m : node) (i : nat) (ids : gmap node jsstring) (n : node) :
  (stampId pf m i ids).2 !! n = ids !! n \/
  (stampId pf m i ids).2 !! n = Some (syntheticId pf i).
Proof.
  destruct (decide (n = m)) as [->|Hne]; [|left; by apply stampId_frame].
  unfold stampId, js_or, setElementId.
  destruct pf; cbn [snd];
    try (right; apply lookup_insert_eq);
    (destruct (truthy (elementId ids m)); cbn [negb]; [by left|right; apply lookup_insert_eq]).
Qed.

Lemma stampAll_writes pf (l : list (nat * node * jsstring)) (ids : gmap node jsstring)
    (n : node) :
  (stampAll pf l ids).2 !! n = ids !! n \/
  exists i, (stampAll pf l ids).2 !! n = Some (syntheticId pf i).
Proof.
  revert ids. induction l as [|c r IH]; intros ids; cbn [stampAll snd]; [by left|].
  destruct (IH (stampId pf c.1.2 c.1.1 ids).2) as [Hsame | Hnew]; [|by right].
  rewrite Hsame. destruct (stampId_writes pf c.1.2 c.1.1 ids n) as [H|H]; [by left|].
  right. by eexists.
Qed.

(** X20.  A Chats row leads nowhere through the ids the extension assigns.
    After a refresh, the id of every Chat differs from every id the
    Question scan writes, so unless some element already carried the Chat's
    id before the refresh, [getElementById] finds nothing for it; when the
    [data-id] lookup finds nothing either, selecting the row changes nothing
    on the host (nothing scrolled, highlighted or timed) and closes the
    panels.  The Chat's [url] plays no part in the selection. *)
Theorem chat_rows_resolve_nowhere (w : World) (c : Chat) :
  c ∈ chats (updateContent w).2 ->
  (forall n, n ∈ elements w.1 -> elementId (ids w.1) n <> c_id c) ->
  (forall index, syntheticId (parser w.2) index <> c_id c) /\
  getElementById (updateContent w).1 (c_id c) = None /\
  (querySelectorRuntime w.1 (dataIdSelector (c_id c)) = Some None ->
   dispatch (RowClick (c_id c)) (updateContent w)
   = ((updateContent w).1, closeAllPanels (updateContent w).2)).
Proof.
  intros Hc Hown. destruct (updateContent_lists w) as (_ & Hchats & _).
  rewrite Hchats in Hc. destruct w as [h ui]. cbn [fst snd] in *.
  assert (forall index, syntheticId (parser ui) index <> c_id c) as Hdiff.
  { intros index. by apply (question_id_not_chat_id _ (page h)). }
  assert (getElementById (updateContent (h, ui)).1 (c_id c) = None) as Hnone.
  { rewrite updateContent_host. unfold getElementById.
    destruct (truthy (c_id c)); [|done]. cbn [set_ids ids elements].
    apply find_nowhere. intros n Hn. apply bool_decide_eq_false.
    apply list_elem_of_In in Hn. rewrite getQuestions_stampAll. unfold elementId.
    destruct (stampAll_writes (parser ui) (acceptedCandidates (parser ui) (page h)) (ids h) n)
      as [-> | [i ->]]; [by apply Hown | apply Hdiff]. }
  split; [done|]. split; [done|]. intros Hsel.
  pose proof (updateContent_host h ui) as Hh.
  destruct (updateContent (h, ui)) as [h' ui']. cbn [fst snd] in *.
  unfold dispatch, rowClick, scrollToElement. rewrite Hnone.
  assert (querySelectorRuntime h' = querySelectorRuntime h) as -> by (by rewrite Hh).
  by rewrite Hsel.
Qed.

Lemma chat_rows_resolve_nowhere_witness :
  getElementById (updateContent (hostOf claudeLongTitle ∅ [0], constructed Claude)).1
                 (js "claude-chat-abc123") = None.
Proof.
  apply (chat_rows_resolve_nowhere (hostOf claudeLongTitle ∅ [0], constructed Claude)
           {| c_id := js "claude-chat-abc123";
              c_title := textOfLength 50 ++ js "...";
              c_url := Some (js "https://claude.ai/chat/abc123?x=1") |}).
  - vm_compute. left.
  - intros n _. vm_compute. discriminate.
Defined.

(** ** What the panels show *)

Lemma closeAllPanels_sameContent (ui : ChatNavigatorUI) : sameContent ui (closeAllPanels ui).
Proof. done. Qed.

Lemma togglePanel_sameContent (type : Kind) (ui : ChatNavigatorUI) :
  sameContent ui (togglePanel type ui).
Proof. unfold togglePanel. destruct (isActivePanel ui type); [done|]. by destruct type. Qed.

Lemma dispatch_sameContent (e : Event) (w : World) :
  sameContent w.2 (dispatch e w).2 /\ ids (dispatch e w).1 = ids w.1 /\
  page (dispatch e w).1 = page w.1.
Proof.
  destruct w as [h ui].
  destruct e as [type | eid | | key |]; cbn [dispatch documentClick negb fst snd].
  - split; [apply togglePanel_sameContent | done].
  - unfold rowClick, scrollToElement.
    destruct (getElementById h eid) as [el|]; cbn [stateOf]; [done|].
    by destruct (querySelectorRuntime h (dataIdSelector eid)) as [[el|]|].
  - done.
  - unfold documentKeyDown. by destruct (bool_decide (key = js "Escape")).
  - unfold onMutation, setTimeout. by destruct (updateTimeout ui).
Qed.

Lemma fire_showsLists (tm : Timer) (w : World) :
  showsLists w.2 -> showsLists (fire tm w).2 /\ parser (fire tm w).2 = parser w.2.
Proof.
  intros Hs. unfold fire. destruct (task tm); cbn [runTask snd]; [|done].
  split; [apply updateContent_lists|].
  destruct w as [h ui]. unfold updateContent. cbn [fst snd set_timers set_now page ids].
  by destruct (getQuestions (parser ui) (page h) (ids h)).
Qed.

Lemma fireDue_showsLists (fuel : nat) (t : Z) (w : World) :
  showsLists w.2 ->
  showsLists (fireDue fuel t w).1.2 /\ parser (fireDue fuel t w).1.2 = parser w.2.
Proof.
  revert w. induction fuel as [|fuel IH]; intros w Hs; cbn [fireDue]; [done|].
  destruct (nextDue t (timers w.1)) as [tm|]; [|done].
  destruct (fire_showsLists tm w Hs) as [H1 H2]. specialize (IH _ H1).
  destruct (fireDue fuel t (fire tm w)) as [w2 tr]. cbn [fst] in *.
  split; [apply IH|]. destruct IH as [_ ->]. exact H2.
Qed.

Lemma run_showsLists (timeline : list (Z * Event)) (w : World) :
  showsLists w.2 ->
  showsLists (run timeline w).1.2 /\ parser (run timeline w).1.2 = parser w.2.
Proof.
  revert w. induction timeline as [|[t e] rest IH]; intros w Hs; cbn [run]; [done|].
  assert (showsLists (advanceTo t w).1.2 /\ parser (advanceTo t w).1.2 = parser w.2)
    as [H1 H2].
  { unfold advanceTo. pose proof (fireDue_showsLists (length (timers w.1)) t w Hs) as H.
    by destruct (fireDue (length (timers w.1)) t w) as [w' tr]. }
  destruct (advanceTo t w) as [w1 tr1]. cbn [fst] in *.
  destruct (dispatch_sameContent e w1) as ((Hp & Hq & Hc & Hqc & Hcc) & _).
  assert (showsLists (dispatch e w1).2) as H3.
  { destruct H1 as [Ha Hb]. unfold showsLists. by rewrite Hqc, Hcc, Hq, Hc. }
  specialize (IH _ H3). destruct (run rest (dispatch e w1)) as [w2 tr2]. cbn [fst] in *.
  split; [apply IH|]. destruct IH as [_ ->]. by rewrite Hp.
Qed.

(** X21.  The panels always show the controller's lists, and only a refresh
    changes either.  From construction on, after any events and timers, the
    Questions panel holds exactly the rendering of [this.questions] and the
    Chats panel that of [this.chats], and the parser is the one the
    controller was built with.  No event handler (button, row, outside
    click, key, change notification) changes the lists, the panel contents
    or any element's id: opening a panel shows what the last refresh
    extracted, not the page as it is now. *)
Theorem panels_show_last_refresh (pf : Platform) (h : Host) (timeline : list (Z * Event))
    (e : Event) :
  showsLists (run timeline (newChatNavigatorUI pf h)).1.2 /\
  parser (run timeline (newChatNavigatorUI pf h)).1.2 = pf /\
  sameContent (run timeline (newChatNavigatorUI pf h)).1.2
              (dispatch e (run timeline (newChatNavigatorUI pf h)).1).2 /\
  ids (dispatch e (run timeline (newChatNavigatorUI pf h)).1).1
  = ids (run timeline (newChatNavigatorUI pf h)).1.1.
Proof.
  assert (showsLists (newChatNavigatorUI pf h).2 /\ parser (newChatNavigatorUI pf h).2 = pf)
    as [Hs Hp].
  { unfold newChatNavigatorUI. split; [apply updateContent_lists|].
    unfold updateContent. cbn [fst snd parser page ids].
    by destruct (getQuestions pf (page h) (ids h)). }
  destruct (run_showsLists timeline _ Hs) as [H1 H2].
  split; [done|]. split; [by rewrite H2|].
  destruct (dispatch_sameContent e (run timeline (newChatNavigatorUI pf h)).1) as (H3 & H4 & _).
  done.
Qed.

